(** * The Nix value printer (src/libexpr/print.cc)

    A shallow embedding of the printer of Nix values: the string and
    attribute-name renderers, the elision notices, and the recursive
    [Printer] with its depth limit, its two global budgets and its set of
    already printed containers.

    Conventions of the embedding.
    - A [std::ostream] is the text written to it so far; [str << x] is
      [str ++ x].
    - [size_t] is 64 bits wide and [unsigned int] 32 bits wide (LP64);
      values of both are [N], and subtraction, increment and narrowing are
      written out with their wrap-around.
    - A [Value &] is an address into a heap of values; the identity of a
      value, which the printer stores in its [seen] set, is that address.
    - The members of [Printer] are a record that every method takes and
      returns; [abort()] and a C++ exception in flight are outcomes of a
      method next to the normal return. *)

From stdpp Require Import gmap strings.
From Stdlib Require Import Ascii String List NArith ZArith Lia DecimalString.
Import ListNotations.

Local Open Scope N_scope.
Local Open Scope list_scope.

(** ** Text *)

Abbreviation text := (list ascii).

Definition lit (s : string) : text := list_ascii_of_string s.

(** The double quote character, written by its code. *)
Definition dquote : ascii := "034"%char.
Definition backslash : ascii := "\"%char.
Definition newline : ascii := "010"%char.
Definition carriage_return : ascii := "013"%char.
Definition tab : ascii := "009"%char.
Definition NUL : ascii := "000"%char.

(** [operator<<] of an [unsigned int], and of a signed 64-bit integer. *)
Definition show_N (n : N) : text := lit (NilZero.string_of_uint (N.to_uint n)).
Definition show_Z (z : Z) : text := lit (NilZero.string_of_int (Z.to_int z)).

(** ** Machine integers *)

Definition SIZE_MAX : N := 2 ^ 64 - 1.

(** [a - b] on [size_t]. *)
Definition size_sub (a b : N) : N := (a + 2 ^ 64 - b) mod 2 ^ 64.

(** [a++] on [size_t]. *)
Definition size_inc (a : N) : N := (a + 1) mod 2 ^ 64.

(** The implicit conversion of a [size_t] to an [unsigned int] parameter. *)
Definition to_unsigned (a : N) : N := a mod 2 ^ 32.

(** ** Colour codes

    The macros of ansicolor.hh are not part of the sources at hand; the
    printer is parametric in the escape sequences they stand for. *)

Record AnsiCodes := {
  ANSI_NORMAL : text;
  ANSI_FAINT : text;
  ANSI_RED : text;
  ANSI_GREEN : text;
  ANSI_BLUE : text;
  ANSI_MAGENTA : text;
  ANSI_CYAN : text
}.

(** ** std::string_view

    A view is a pointer and a length.  [sv_chars] are the characters inside
    the view; [sv_past] is the byte that the underlying storage holds right
    behind them (the terminating NUL when the view covers a whole
    [std::string] or a C string, any byte when it is a window into a larger
    buffer).  Position [length] is outside the bounds of the view. *)

Record string_view := {
  sv_chars : text;
  sv_past : ascii
}.

(** The view of a whole [std::string]. *)
Definition view_of (s : text) : string_view :=
  {| sv_chars := s; sv_past := NUL |}.

(** [string.length()] *)
Definition sv_length (s : string_view) : N := N.of_nat (length (sv_chars s)).

(** [*(string.begin() + i)]: inside the view for [i < length]. *)
Definition deref (s : string_view) (i : nat) : ascii :=
  nth i (sv_chars s) (sv_past s).

(** Modelled from the spec: [pluralize] of english.hh is not part of the
    sources.  The spec's elision reporter prints the count followed by the
    singular word if and only if the count is 1, and by the plural word
    otherwise. *)
Definition pluralize (output : text) (count : N) (single plural : text) : text :=
  output ++ show_N count ++ lit " " ++ (if count =? 1 then single else plural).

Section Renderers.

Variable ansi : AnsiCodes.

(** [output << code] when colours are on. *)
Definition colour (ansiColors : bool) (code : text) (output : text) : text :=
  if ansiColors then output ++ code else output.

(** [printElided]: [value] has type [unsigned int]. *)
Definition printElided (output : text) (value : N) (single plural : text)
    (ansiColors : bool) : text :=
  let output := colour ansiColors (ANSI_FAINT ansi) output in
  let output := output ++ lit "«" in
  let output := pluralize output value single plural in
  let output := output ++ lit " elided»" in
  colour ansiColors (ANSI_NORMAL ansi) output.

(** The state of the loop of [printLiteralString]: the stream, and the
    positions of the view that have been dereferenced so far. *)
Record LiteralState := {
  ls_str : text;
  ls_reads : list nat
}.

Definition ls_emit (t : text) (st : LiteralState) : LiteralState :=
  {| ls_str := ls_str st ++ t; ls_reads := ls_reads st |}.

Definition ls_read (i : nat) (st : LiteralState) : LiteralState :=
  {| ls_str := ls_str st; ls_reads := ls_reads st ++ [i] |}.

(** The body of the [for] loop for the character [c] at position [i]: the
    chain of comparisons on [*i], with [*(i+1)] evaluated only when [*i] is
    a dollar sign. *)
Definition printLiteralChar (string : string_view) (i : nat) (st : LiteralState)
    : LiteralState :=
  let st := ls_read i st in
  let c := deref string i in
  if Ascii.eqb c dquote || Ascii.eqb c backslash then ls_emit [backslash; c] st
  else if Ascii.eqb c newline then ls_emit (lit "\n") st
  else if Ascii.eqb c carriage_return then ls_emit (lit "\r") st
  else if Ascii.eqb c tab then ls_emit (lit "\t") st
  else if Ascii.eqb c "$" then
    let st := ls_read (S i) st in
    if Ascii.eqb (deref string (S i)) "{" then ls_emit [backslash; c] st
    else ls_emit [c] st
  else ls_emit [c] st.

(** The [for] loop; [n] counts the positions from [i] to [string.end()]. *)
Fixpoint printLiteralString_loop (string : string_view) (maxLength : N)
    (ansiColors : bool) (n : nat) (i : nat) (charsPrinted : N)
    (st : LiteralState) : LiteralState :=
  match n with
  | O =>
      let st := ls_emit [dquote] st in
      {| ls_str := colour ansiColors (ANSI_NORMAL ansi) (ls_str st);
         ls_reads := ls_reads st |}
  | S n' =>
      if maxLength <=? charsPrinted then
        let st := ls_emit [dquote; " "%char] st in
        {| ls_str := printElided (ls_str st)
                       (to_unsigned (size_sub (sv_length string) charsPrinted))
                       (lit "byte") (lit "bytes") ansiColors;
           ls_reads := ls_reads st |}
      else
        let st := printLiteralChar string i st in
        printLiteralString_loop string maxLength ansiColors n' (S i)
          (size_inc charsPrinted) st
  end.

Definition printLiteralString_run (str : text) (string : string_view)
    (maxLength : N) (ansiColors : bool) : LiteralState :=
  let str := colour ansiColors (ANSI_MAGENTA ansi) str in
  let str := str ++ [dquote] in
  printLiteralString_loop string maxLength ansiColors
    (length (sv_chars string)) 0%nat 0
    {| ls_str := str; ls_reads := [] |}.

(** [printLiteralString(str, string, maxLength, ansiColors)] *)
Definition printLiteralString (str : text) (string : string_view)
    (maxLength : N) (ansiColors : bool) : text :=
  ls_str (printLiteralString_run str string maxLength ansiColors).

(** The positions of [string] that the call dereferences, in order. *)
Definition printLiteralString_reads (string : string_view)
    (maxLength : N) (ansiColors : bool) : list nat :=
  ls_reads (printLiteralString_run [] string maxLength ansiColors).

(** [printLiteralString(str, string)]: no limit, no colours. *)
Definition printLiteralString_unlimited (str : text) (string : string_view) : text :=
  printLiteralString str string SIZE_MAX false.

Definition printLiteralBool (str : text) (boolean : bool) : text :=
  str ++ (if boolean then lit "true" else lit "false").

End Renderers.

(** ** Identifiers and attribute names *)

Definition reservedKeywords : list text :=
  map lit ["if"; "then"; "else"; "assert"; "with"; "let"; "in"; "rec"; "inherit"]%string.

Definition isReservedKeyword (str : text) : bool :=
  bool_decide (str ∈ reservedKeywords).

(** Comparisons of [char]s; all the bounds are below 128, so the signedness
    of [char] does not matter. *)
Definition char_in (lo hi c : ascii) : bool :=
  (N_of_ascii lo <=? N_of_ascii c) && (N_of_ascii c <=? N_of_ascii hi).

Definition is_lower (c : ascii) : bool := char_in "a" "z" c.
Definition is_upper (c : ascii) : bool := char_in "A" "Z" c.
Definition is_digit (c : ascii) : bool := char_in "0" "9" c.

(** The character class of the loop in [isVarName]. *)
Definition isVarChar (i : ascii) : bool :=
  is_lower i || is_upper i || is_digit i
  || Ascii.eqb i "_" || Ascii.eqb i "-" || Ascii.eqb i "'".

Definition isVarName (s : text) : bool :=
  match s with
  | [] => false
  | c :: _ =>
      if isReservedKeyword s then false
      else if is_digit c || Ascii.eqb c "-" || Ascii.eqb c "'" then false
      else forallb isVarChar s
  end.

Section Names.

Variable ansi : AnsiCodes.

Definition printAttributeName (str : text) (name : string_view) : text :=
  if isVarName (sv_chars name) then str ++ sv_chars name
  else printLiteralString_unlimited ansi str name.

End Names.

(** ** Values

    [Value] is the tagged union of value.hh, which is not part of the
    sources; each constructor carries what the printer reads from a value of
    that type.  Names of attributes are the texts [state.symbols] resolves
    them to, and texts that the printer obtains from other components (the
    rendering of a double, of a path, of a source position, of a primop, of
    an external value) are carried as such. *)

Abbreviation Addr := N.

(** A function value.  [Lambda] carries [v.lambda.fun] if it is set: the
    name of the function, if it has one, and the text of its position after
    [filterANSIEscapes].  [PrimOp] and [PrimOpApp] carry the text that
    [operator<<] writes for the primop, if the pointer is set.
    [OtherFunction] is a function for which [isLambda], [isPrimOp] and
    [isPrimOpApp] all answer no. *)
Inductive FunctionKind :=
| Lambda (fun_ : option (option text * text))
| PrimOp (primOp : option text)
| PrimOpApp (primOp : option text)
| OtherFunction.

(** A value of type [nThunk]: a black hole, a thunk or an application (with
    a handle on the suspended expression), or none of these. *)
Inductive ThunkKind :=
| Blackhole
| Thunk (expr : N)
| App (expr : N)
| OtherThunk.

Inductive Value :=
| VInt (integer : Z)
| VFloat (fpoint : text)
| VBool (boolean : bool)
| VString (s : string_view)
| VPath (path : text)
| VNull
| VAttrs (attrs : list (text * Addr))
| VList (listItems : list (option Addr))
| VFunction (f : FunctionKind)
| VThunk (t : ThunkKind)
| VExternal (printed : text)
| VInvalid (tag : N).

(** What [v.type()] returns; [nOutside] stands for the values of the
    enumeration type that are none of its enumerators, which [VInvalid]
    carries. *)
Inductive ValueType :=
| nThunk | nInt | nFloat | nBool | nString | nPath | nNull | nAttrs | nList
| nFunction | nExternal
| nOutside (tag : N).

Definition type (v : Value) : ValueType :=
  match v with
  | VInt _ => nInt
  | VFloat _ => nFloat
  | VBool _ => nBool
  | VString _ => nString
  | VPath _ => nPath
  | VNull => nNull
  | VAttrs _ => nAttrs
  | VList _ => nList
  | VFunction _ => nFunction
  | VThunk _ => nThunk
  | VExternal _ => nExternal
  | VInvalid tag => nOutside tag
  end.

Abbreviation Heap := (Addr -> Value).

(** [BaseError], of which the printer reads [msg()]. *)
Record Error := { msg : text }.

(** ** The evaluator

    [EvalState] is outside the sources; the printer uses these members.
    Each of them is a call into the evaluator, about which nothing is
    assumed: it returns or it throws, and it leaves a heap (forcing
    overwrites a thunk by its result; [isDerivation] looks into the set,
    and coercing to a store path looks at the value, which may force
    either). *)
Record EvalState := {
  forceValue : Heap -> Addr -> Heap * option Error;
  isDerivation : Heap -> Addr -> Heap * (Error + bool);
  sDrvPath : text;
  (** [store->printStorePath(coerceToStorePath(..., v, ...))] *)
  coerceToStorePath : Heap -> Addr -> Heap * (Error + text)
}.

Record PrintOptions := {
  force : bool;
  derivationPaths : bool;
  maxDepth : N;
  maxAttrs : N;
  maxListItems : N;
  maxStringLength : N;
  ansiColors : bool;
  trackRepeated : bool
}.

(** ** The printer *)

(** The members of [Printer] that change, and the heap its [state] owns. *)
Record Printer := {
  output : text;
  heap : Heap;
  seen : option (gset N);
  attrsPrinted : N;
  listItemsPrinted : N
}.

(** How a method ends: it returns, the process is aborted, or an exception
    leaves it. *)
Inductive Outcome :=
| Returned (p : Printer)
| Aborted (p : Printer)
| Thrown (e : Error) (p : Printer).

(** A method; [None] stands for a recursion deeper than the fuel given. *)
Abbreviation Method := (Printer -> option Outcome).

Definition andThen (a b : Method) : Method :=
  fun p =>
    match a p with
    | Some (Returned p') => b p'
    | r => r
    end.

Notation "a >>> b" := (andThen a b) (at level 62, right associativity).

Definition lift (f : Printer -> Printer) : Method :=
  fun p => Some (Returned (f p)).

Definition skip : Method := lift id.

Definition write (f : text -> text) (p : Printer) : Printer :=
  {| output := f (output p); heap := heap p; seen := seen p;
     attrsPrinted := attrsPrinted p; listItemsPrinted := listItemsPrinted p |}.

Definition emit (t : text) (p : Printer) : Printer :=
  write (fun out => out ++ t) p.

Definition set_heap (h : Heap) (p : Printer) : Printer :=
  {| output := output p; heap := h; seen := seen p;
     attrsPrinted := attrsPrinted p; listItemsPrinted := listItemsPrinted p |}.

Definition set_seen (s : option (gset N)) (p : Printer) : Printer :=
  {| output := output p; heap := heap p; seen := s;
     attrsPrinted := attrsPrinted p; listItemsPrinted := listItemsPrinted p |}.

Definition incr_attrsPrinted (p : Printer) : Printer :=
  {| output := output p; heap := heap p; seen := seen p;
     attrsPrinted := size_inc (attrsPrinted p);
     listItemsPrinted := listItemsPrinted p |}.

Definition incr_listItemsPrinted (p : Printer) : Printer :=
  {| output := output p; heap := heap p; seen := seen p;
     attrsPrinted := attrsPrinted p;
     listItemsPrinted := size_inc (listItemsPrinted p) |}.

(** [seen && !seen->insert(&v).second]: the insertion happens whenever
    [seen] holds a set; the answer is whether [v] was in it before. *)
Definition seen_insert (v : Addr) (p : Printer) : bool * Printer :=
  match seen p with
  | Some s => (bool_decide (v ∈ s), set_seen (Some ({[ v ]} ∪ s)) p)
  | None => (false, p)
  end.

(** ** Ordering of attributes *)

(** [operator<] of [std::string]: lexicographic on unsigned bytes. *)
Fixpoint text_lt (a b : text) : bool :=
  match a, b with
  | _, [] => false
  | [], _ :: _ => true
  | x :: a', y :: b' =>
      if N_of_ascii x <? N_of_ascii y then true
      else if N_of_ascii y <? N_of_ascii x then false
      else text_lt a' b'
  end.

Definition text_eqb (a b : text) : bool := bool_decide (a = b).

Abbreviation AttrPair := (text * Addr)%type.

(** [operator<] of [std::pair<std::string, Value *>]. *)
Definition pair_lt (lhs rhs : AttrPair) : bool :=
  text_lt (fst lhs) (fst rhs)
  || (negb (text_lt (fst rhs) (fst lhs)) && (snd lhs <? snd rhs)).

Definition isImportantAttrName (attrName : text) : bool :=
  text_eqb attrName (lit "type") || text_eqb attrName (lit "_type").

(** [ImportantFirstAttrNameCmp]: [operator<] of the tuples
    [(!important, name)], where [false < true]. *)
Definition ImportantFirstAttrNameCmp (lhs rhs : AttrPair) : bool :=
  let l := negb (isImportantAttrName (fst lhs)) in
  let r := negb (isImportantAttrName (fst rhs)) in
  (negb l && r) || (negb (negb r && l) && text_lt (fst lhs) (fst rhs)).

(** [std::sort] with a comparison; for pairs that the comparison tells
    apart (the names of one attribute set are distinct) the result does not
    depend on the algorithm. *)
Fixpoint sort_insert (lt : AttrPair -> AttrPair -> bool) (x : AttrPair)
    (l : list AttrPair) : list AttrPair :=
  match l with
  | [] => [x]
  | y :: l' => if lt y x then y :: sort_insert lt x l' else x :: l
  end.

Definition sort (lt : AttrPair -> AttrPair -> bool) (l : list AttrPair)
    : list AttrPair :=
  fold_right (sort_insert lt) [] l.

(** [v.attrs->find(name)] *)
Definition find_attr (name : text) (attrs : list AttrPair) : option Addr :=
  snd <$> List.find (fun i => text_eqb (fst i) name) attrs.

Section Printer.

Variable ansi : AnsiCodes.
Variable state : EvalState.
Variable options : PrintOptions.

(** [output << text], wrapped in a colour when colours are on. *)
Definition coloured (code : text) (t : text) (p : Printer) : Printer :=
  write (fun out =>
    colour (ansiColors options) (ANSI_NORMAL ansi)
      (colour (ansiColors options) code out ++ t)) p.

Definition printRepeated : Printer -> Printer :=
  coloured (ANSI_MAGENTA ansi) (lit "«repeated»").

Definition printNullptr : Printer -> Printer :=
  coloured (ANSI_MAGENTA ansi) (lit "«nullptr»").

(** [Printer::printElided], which passes [options.ansiColors] on. *)
Definition printElided_ (value : N) (single plural : text) : Printer -> Printer :=
  write (fun out => printElided ansi out value single plural (ansiColors options)).

Definition printInt (integer : Z) : Printer -> Printer :=
  coloured (ANSI_CYAN ansi) (show_Z integer).

Definition printFloat (fpoint : text) : Printer -> Printer :=
  coloured (ANSI_CYAN ansi) fpoint.

Definition printBool (boolean : bool) : Printer -> Printer :=
  write (fun out =>
    colour (ansiColors options) (ANSI_NORMAL ansi)
      (printLiteralBool (colour (ansiColors options) (ANSI_CYAN ansi) out) boolean)).

Definition printString (s : string_view) : Printer -> Printer :=
  write (fun out =>
    printLiteralString ansi out s (maxStringLength options) (ansiColors options)).

Definition printPath (path : text) : Printer -> Printer :=
  coloured (ANSI_GREEN ansi) path.

Definition printNull : Printer -> Printer :=
  coloured (ANSI_CYAN ansi) (lit "null").

Definition printError_ (e : Error) : Printer -> Printer :=
  coloured (ANSI_RED ansi) (lit "«" ++ msg e ++ lit "»").

Definition printUnknown : Printer -> Printer :=
  coloured (ANSI_RED ansi) (lit "«unknown»").

(** [try { ... } catch (BaseError & e) { handler }] *)
Definition try_catch (body : Method) (handler : Error -> Method) : Method :=
  fun p =>
    match body p with
    | Some (Thrown e p') => handler e p'
    | r => r
    end.

(** [state.forceValue(v, ...)] as a method: the heap is the one the
    evaluator leaves, also when it throws. *)
Definition force_value (v : Addr) : Method :=
  fun p =>
    match forceValue state (heap p) v with
    | (h, Some e) => Some (Thrown e (set_heap h p))
    | (h, None) => Some (Returned (set_heap h p))
    end.

(** The first statements of the [try] block of [printDerivation]: the store
    path stays empty when the set has no [drvPath]. *)
Definition drvStorePath (attrs : list AttrPair) (k : text -> Method) : Method :=
  fun p =>
    match find_attr (sDrvPath state) attrs with
    | None => k [] p
    | Some i =>
        match coerceToStorePath state (heap p) i with
        | (h, inl e) => Some (Thrown e (set_heap h p))
        | (h, inr storePath) => k storePath (set_heap h p)
        end
    end.

Definition printDerivation (attrs : list AttrPair) : Method :=
  try_catch
    (drvStorePath attrs (fun storePath =>
       lift (coloured (ANSI_GREEN ansi)
               (lit "«derivation"
                ++ (match storePath with
                    | [] => []
                    | _ :: _ => lit " " ++ storePath
                    end)
                ++ lit "»"))))
    (fun e => lift (printError_ e)).

(** The loop over [sorted] in [printAttrs]; [size] is [sorted.size()] and
    [print] the recursive call. *)
Fixpoint printAttrs_loop (print : Addr -> N -> Method) (size : N) (depth : N)
    (sorted : list AttrPair) : Method :=
  match sorted with
  | [] => skip
  | i :: rest =>
      fun p =>
        if maxAttrs options <=? attrsPrinted p then
          lift (printElided_ (to_unsigned (size_sub size (attrsPrinted p)))
                  (lit "attribute") (lit "attributes")) p
        else
          (lift (write (fun out => printAttributeName ansi out (view_of (fst i))))
           >>> lift (emit (lit " = "))
           >>> print (snd i) (size_inc depth)
           >>> lift (emit (lit "; "))
           >>> lift incr_attrsPrinted
           >>> printAttrs_loop print size depth rest) p
  end.

(** [options.force && options.derivationPaths && state.isDerivation(v)]:
    [isDerivation] is called only when both options are set; the call
    answers or throws, and leaves a heap. *)
Definition derivationTest (h : Heap) (v : Addr) : Heap * (Error + bool) :=
  if force options && derivationPaths options then isDerivation state h v
  else (h, inr false).

(** The test of the derivation stands in no [try] block: an exception of
    [isDerivation] leaves [printAttrs]. *)
Definition printAttrs (print : Addr -> N -> Method) (v : Addr)
    (attrs : list AttrPair) (depth : N) : Method :=
  fun p =>
    let (repeated, p) := seen_insert v p in
    if repeated then lift printRepeated p
    else
      match derivationTest (heap p) v with
      | (h, inl e) => Some (Thrown e (set_heap h p))
      | (h, inr true) => printDerivation attrs (set_heap h p)
      | (h, inr false) =>
          if depth <? maxDepth options then
            let sorted :=
              if maxAttrs options =? SIZE_MAX then sort pair_lt attrs
              else sort ImportantFirstAttrNameCmp attrs in
            (lift (emit (lit "{ "))
             >>> printAttrs_loop print (N.of_nat (length sorted)) depth sorted
             >>> lift (emit (lit "}"))) (set_heap h p)
          else lift (emit (lit "{ ... }")) (set_heap h p)
      end.

(** The loop over [v.listItems()] in [printList]; [size] is [v.listSize()]. *)
Fixpoint printList_loop (print : Addr -> N -> Method) (size : N) (depth : N)
    (items : list (option Addr)) : Method :=
  match items with
  | [] => skip
  | elem :: rest =>
      fun p =>
        if maxListItems options <=? listItemsPrinted p then
          lift (printElided_ (to_unsigned (size_sub size (listItemsPrinted p)))
                  (lit "item") (lit "items")) p
        else
          ((match elem with
            | Some e => print e (size_inc depth)
            | None => lift printNullptr
            end)
           >>> lift (emit (lit " "))
           >>> lift incr_listItemsPrinted
           >>> printList_loop print size depth rest) p
  end.

Definition printList (print : Addr -> N -> Method) (v : Addr)
    (items : list (option Addr)) (depth : N) : Method :=
  fun p =>
    let (repeated, p) :=
      match items with
      | [] => (false, p)
      | _ :: _ => seen_insert v p
      end in
    if repeated then lift printRepeated p
    else
      (lift (emit (lit "[ "))
       >>> (if depth <? maxDepth options then
              printList_loop print (N.of_nat (length items)) depth items
            else lift (emit (lit "... ")))
       >>> lift (emit (lit "]"))) p.

Definition printFunction (f : FunctionKind) : Method :=
  let body (t : text) : Method :=
    lift (coloured (ANSI_BLUE ansi) (lit "«" ++ t ++ lit "»")) in
  let primop (primOp : option text) : text :=
    match primOp with
    | Some d => d
    | None => lit "primop"
    end in
  match f with
  | Lambda fun_ =>
      body (lit "lambda"
            ++ match fun_ with
               | Some (name, pos) =>
                   (match name with
                    | Some n => lit " " ++ n
                    | None => []
                    end) ++ lit " @ " ++ pos
               | None => []
               end)
  | PrimOp primOp => body (primop primOp)
  | PrimOpApp primOp => body (lit "partially applied " ++ primop primOp)
  | OtherFunction =>
      fun p => Some (Aborted (write (fun out =>
                 colour (ansiColors options) (ANSI_BLUE ansi) out ++ lit "«") p))
  end.

Definition printThunk (t : ThunkKind) : Method :=
  match t with
  | Blackhole => lift (coloured (ANSI_RED ansi) (lit "«potential infinite recursion»"))
  | Thunk _ | App _ => lift (coloured (ANSI_MAGENTA ansi) (lit "«thunk»"))
  | OtherThunk => fun p => Some (Aborted p)
  end.

Definition printExternal (printed : text) : Printer -> Printer :=
  emit printed.

(** The [switch (v.type())] of [print]: one case for each enumerator, each
    reading the fields of its type, and the [default] case for a type
    outside the enumerators. *)
Definition dispatch (print : Addr -> N -> Method) (v : Addr) (depth : N) : Method :=
  fun p =>
    match heap p v with
    | VInt integer => lift (printInt integer) p
    | VFloat fpoint => lift (printFloat fpoint) p
    | VBool boolean => lift (printBool boolean) p
    | VString s => lift (printString s) p
    | VPath path => lift (printPath path) p
    | VNull => lift printNull p
    | VAttrs attrs => printAttrs print v attrs depth p
    | VList items => printList print v items depth p
    | VFunction f => printFunction f p
    | VThunk t => printThunk t p
    | VExternal printed => lift (printExternal printed) p
    | VInvalid _ => lift printUnknown p
    end.

(** [Printer::print(Value & v, size_t depth)].  No interrupt is pending, so
    [checkInterrupt()] returns; the flush does not change the text. *)
Fixpoint print (fuel : nat) (v : Addr) (depth : N) : Method :=
  match fuel with
  | O => fun _ => None
  | S fuel' =>
      if force options then
        fun p =>
          match force_value v p with
          | Some (Thrown e p') => Some (Returned (printError_ e p'))
          | Some (Returned p') => dispatch (print fuel') v depth p'
          | r => r
          end
      else dispatch (print fuel') v depth
  end.

(** [Printer::print(Value & v)] *)
Definition print_top (fuel : nat) (v : Addr) : Method :=
  fun p =>
    print fuel v 0
      {| output := output p; heap := heap p;
         seen := if trackRepeated options then Some ∅ else None;
         attrsPrinted := 0; listItemsPrinted := 0 |}.

(** [printValue(state, output, v, options)]: a [Printer] is constructed and
    asked to print [v]. *)
Definition printValue (fuel : nat) (h : Heap) (out : text) (v : Addr)
    : option Outcome :=
  print_top fuel v
    {| output := out; heap := h; seen := None;
       attrsPrinted := 0; listItemsPrinted := 0 |}.

End Printer.

(** ** Concrete instances, for the examples *)

Definition ESC : ascii := "027"%char.

(** The escape sequences that Nix uses. *)
Definition nix_ansi : AnsiCodes := {|
  ANSI_NORMAL := ESC :: lit "[0m";
  ANSI_FAINT := ESC :: lit "[2m";
  ANSI_RED := ESC :: lit "[31;1m";
  ANSI_GREEN := ESC :: lit "[32;1m";
  ANSI_BLUE := ESC :: lit "[34;1m";
  ANSI_MAGENTA := ESC :: lit "[35;1m";
  ANSI_CYAN := ESC :: lit "[36;1m"
|}.

Definition heap_set (h : Heap) (a : Addr) (v : Value) : Heap :=
  fun a' => if a' =? a then v else h a'.

Definition heap_of (l : list Value) : Heap :=
  fun a => nth (N.to_nat a) l VNull.

(** A small evaluator.  The expression 0 throws; the expression 1,
    evaluated for the thunk at the address [v], yields a list whose only
    item is that very thunk, so that forcing builds a cycle; any other
    expression [n] yields the integer [n]. *)
Definition toy_eval (v : Addr) (expr : N) : Error + Value :=
  match expr with
  | 0 => inl {| msg := lit "boom" |}
  | 1 => inr (VList [Some v])
  | n => inr (VInt (Z.of_N n))
  end.

(** Forcing overwrites a thunk by its value; forcing a black hole throws;
    everything else is already evaluated. *)
Definition toy_forceValue (h : Heap) (v : Addr) : Heap * option Error :=
  match h v with
  | VThunk (Thunk expr) | VThunk (App expr) =>
      match toy_eval v expr with
      | inl e => (h, Some e)
      | inr val => (heap_set h v val, None)
      end
  | VThunk Blackhole => (h, Some {| msg := lit "infinite recursion encountered" |})
  | _ => (h, None)
  end.

(** A derivation is a set whose attribute [type] is the string
    [derivation]; to look at the attribute, [isDerivation] forces it, and
    the exception of a failing thunk leaves [isDerivation]. *)
Definition toy_isDerivation (h : Heap) (v : Addr) : Heap * (Error + bool) :=
  match h v with
  | VAttrs attrs =>
      match find_attr (lit "type") attrs with
      | Some t =>
          match toy_forceValue h t with
          | (h', Some e) => (h', inl e)
          | (h', None) =>
              (h', inr match h' t with
                       | VString s => text_eqb (sv_chars s) (lit "derivation")
                       | _ => false
                       end)
          end
      | None => (h, inr false)
      end
  | _ => (h, inr false)
  end.

Definition toy_coerceToStorePath (h : Heap) (v : Addr) : Heap * (Error + text) :=
  match h v with
  | VString s => (h, inr (sv_chars s))
  | _ => (h, inl {| msg := lit "cannot coerce to a store path" |})
  end.

Definition toy_state : EvalState := {|
  forceValue := toy_forceValue;
  isDerivation := toy_isDerivation;
  sDrvPath := lit "drvPath";
  coerceToStorePath := toy_coerceToStorePath
|}.

(** The defaults of [PrintOptions]: nothing is forced, nothing is limited. *)
Definition default_options : PrintOptions := {|
  force := false;
  derivationPaths := false;
  maxDepth := SIZE_MAX;
  maxAttrs := SIZE_MAX;
  maxListItems := SIZE_MAX;
  maxStringLength := SIZE_MAX;
  ansiColors := false;
  trackRepeated := true
|}.

Definition forcing_options : PrintOptions := {|
  force := true;
  derivationPaths := true;
  maxDepth := SIZE_MAX;
  maxAttrs := SIZE_MAX;
  maxListItems := SIZE_MAX;
  maxStringLength := SIZE_MAX;
  ansiColors := false;
  trackRepeated := true
|}.

Definition with_maxDepth (d : N) (o : PrintOptions) : PrintOptions := {|
  force := force o;
  derivationPaths := derivationPaths o;
  maxDepth := d;
  maxAttrs := maxAttrs o;
  maxListItems := maxListItems o;
  maxStringLength := maxStringLength o;
  ansiColors := ansiColors o;
  trackRepeated := trackRepeated o
|}.

Definition with_maxAttrs (m : N) (o : PrintOptions) : PrintOptions := {|
  force := force o;
  derivationPaths := derivationPaths o;
  maxDepth := maxDepth o;
  maxAttrs := m;
  maxListItems := maxListItems o;
  maxStringLength := maxStringLength o;
  ansiColors := ansiColors o;
  trackRepeated := trackRepeated o
|}.

(** The text that a call of [printValue] wrote, if it returned. *)
Definition printed (r : option Outcome) : option text :=
  match r with
  | Some (Returned p) => Some (output p)
  | _ => None
  end.


(** [{ a = { x = 1; }; b = 2; c = 3; }] *)
Definition heap_nested_attrs : Heap :=
  heap_of [ VAttrs [(lit "a", 1); (lit "b", 3); (lit "c", 4)];
            VAttrs [(lit "x", 2)];
            VInt 1; VInt 2; VInt 3 ].

(** [{ a = { x = { p = 1; }; }; b = 2; }] *)
Definition heap_deep_attrs : Heap :=
  heap_of [ VAttrs [(lit "a", 1); (lit "b", 4)];
            VAttrs [(lit "x", 2)];
            VAttrs [(lit "p", 3)];
            VInt 1; VInt 2 ].

(** [[ [ 1 2 ] 3 4 ]] *)
Definition heap_nested_list : Heap :=
  heap_of [ VList [Some 1; Some 4; Some 5];
            VList [Some 2; Some 3];
            VInt 1; VInt 2; VInt 3; VInt 4 ].


(** A value with a type tag that is no enumerator, inside a list. *)
Definition heap_invalid : Heap :=
  heap_of [ VList [Some 1; Some 2]; VInvalid 99; VInt 7 ].

(** [r = [ a x ]] with [a = [ x ]] and [x = [ 1 ]]: the list [x] is shared. *)
Definition heap_shared : Heap :=
  heap_of [ VList [Some 1; Some 2];
            VList [Some 2];
            VList [Some 3];
            VInt 1 ].

(** [rec { n = 1; self = <this very set>; }] and a list that holds itself. *)
Definition heap_cyclic : Heap :=
  heap_of [ VAttrs [(lit "self", 0); (lit "n", 1); (lit "l", 2)];
            VInt 1;
            VList [Some 2; Some 3; Some 3];
            VList [] ].

(** [{ xs = <thunk of the expression 1>; }]: forcing [xs] yields a list that
    holds itself. *)
Definition heap_lazy_cycle : Heap :=
  heap_of [ VAttrs [(lit "xs", 1)]; VThunk (Thunk 1) ].

(** [{ n = 1; type = <thunk that throws>; }] *)
Definition heap_type_throws : Heap :=
  heap_of [ VAttrs [(lit "n", 1); (lit "type", 2)];
            VInt 1;
            VThunk (Thunk 0) ].

(** Values are forced, derivations are not looked for. *)
Definition force_only_options : PrintOptions := {|
  force := true;
  derivationPaths := false;
  maxDepth := 5;
  maxAttrs := SIZE_MAX;
  maxListItems := SIZE_MAX;
  maxStringLength := SIZE_MAX;
  ansiColors := false;
  trackRepeated := true
|}.

(** [[ 1 { type = <thunk that throws>; } 2 ]] *)
Definition heap_type_throws_inside : Heap :=
  heap_of [ VList [Some 1; Some 2; Some 4];
            VInt 1;
            VAttrs [(lit "type", 3)];
            VThunk (Thunk 0);
            VInt 2 ].

(** ** The renderings that the specification describes *)

(** The rendering of the character [c] of a string when the character
    after it is [next]: the six escapes, and every other character as it
    is. *)
Definition escape (c next : ascii) : text :=
  if Ascii.eqb c dquote then [backslash; dquote]
  else if Ascii.eqb c backslash then [backslash; backslash]
  else if Ascii.eqb c newline then [backslash; "n"%char]
  else if Ascii.eqb c carriage_return then [backslash; "r"%char]
  else if Ascii.eqb c tab then [backslash; "t"%char]
  else if Ascii.eqb c "$" && Ascii.eqb next "{" then [backslash; "$"%char]
  else [c].

(** The characters at the positions [i], ..., [i + n - 1] of a view, each
    one escaped. *)
Definition pieces (s : string_view) (i n : nat) : text :=
  concat (map (fun j => escape (deref s j) (deref s (S j))) (seq i n)).

(** The first [k] characters of a view, each one escaped. *)
Definition escaped_prefix (string : string_view) (k : nat) : text :=
  pieces string 0 k.

Definition when (b : bool) (t : text) : text := if b then t else [].

(** An elision notice for [count] things. *)
Definition elision_notice (ansi : AnsiCodes) (count : N) (single plural : text)
    (ansiColors : bool) : text :=
  when ansiColors (ANSI_FAINT ansi)
  ++ lit "«" ++ show_N count ++ lit " "
  ++ (if count =? 1 then single else plural)
  ++ lit " elided»"
  ++ when ansiColors (ANSI_NORMAL ansi).

(** A string of length L cut at the limit M: the opening quote, M
    characters, the closing quote, and a notice for L - M bytes. *)
Definition truncated_rendering (ansi : AnsiCodes) (string : string_view)
    (maxLength : N) (ansiColors : bool) : text :=
  when ansiColors (ANSI_MAGENTA ansi)
  ++ [dquote] ++ escaped_prefix string (N.to_nat maxLength) ++ [dquote; " "%char]
  ++ elision_notice ansi (sv_length string - maxLength) (lit "byte") (lit "bytes")
       ansiColors.

Definition prints_truncated (ansi : AnsiCodes) (str : text) (string : string_view)
    (maxLength : N) (ansiColors : bool) : Prop :=
  printLiteralString ansi str string maxLength ansiColors
  = str ++ truncated_rendering ansi string maxLength ansiColors.

(** A string of 2^32 + 1 characters. *)
Definition giant_string : string_view :=
  view_of (repeat "a"%char (N.to_nat (2 ^ 32 + 1))).

(** The one-character view [$] at the start of the buffer [${]. *)
Definition dollar_before_brace : string_view :=
  {| sv_chars := lit "$"; sv_past := "{"%char |}.

(** A key that is printed bare, in the words of the specification. *)
Definition letter (c : ascii) : Prop :=
  (N_of_ascii "a" <= N_of_ascii c <= N_of_ascii "z")
  \/ (N_of_ascii "A" <= N_of_ascii c <= N_of_ascii "Z").

Definition digit (c : ascii) : Prop :=
  N_of_ascii "0" <= N_of_ascii c <= N_of_ascii "9".

Definition bare_key (s : text) : Prop :=
  s <> []
  /\ ~ In s reservedKeywords
  /\ (forall c, head s = Some c -> ~ digit c /\ c <> "-"%char /\ c <> "'"%char)
  /\ Forall (fun c => letter c \/ digit c \/ c = "_"%char \/ c = "'"%char
                      \/ c = "-"%char) s.

(** ** Notions used to state what the printer does *)

Section Notions.

Variable state : EvalState.
Variable options : PrintOptions.

(** What [print] does to the heap before it looks at the value: it forces
    the value when [force] is set. *)
Definition forced (h : Heap) (v : Addr) : Heap * option Error :=
  if force options then forceValue state h v else (h, None).

(** The test under which [printAttrs] prints a derivation path in place of
    the attributes: the heap it leaves, and its answer or the exception it
    throws. *)
Definition shortcut (h : Heap) (v : Addr) : Heap * (Error + bool) :=
  derivationTest state options h v.

End Notions.

(** The values whose identity [printAttrs] and [printList] record in
    [seen]: attribute sets, and lists that are not empty. *)
Definition is_container (val : Value) : bool :=
  match val with
  | VAttrs _ => true
  | VList (_ :: _) => true
  | _ => false
  end.

(** The text printed for a container whose contents are not enumerated. *)
Definition placeholder (val : Value) : text :=
  match val with
  | VAttrs _ => lit "{ ... }"
  | _ => lit "[ ... ]"
  end.

(** All the containers of a heap have their addresses in [U]. *)
Definition containers_in (U : gset N) (h : Heap) : Prop :=
  forall a, is_container (h a) = true -> a ∈ U.

(** The evaluator keeps the property [Inv] of the heap. *)
Definition evaluator_preserves (state : EvalState) (Inv : Heap -> Prop) : Prop :=
  forall h a, Inv h ->
    Inv (fst (forceValue state h a))
    /\ Inv (fst (coerceToStorePath state h a))
    /\ Inv (fst (isDerivation state h a)).

(** For the small evaluator: the containers of the heap, and the thunks that
    will become containers, have their addresses in [U]. *)
Definition lazily_within (U : gset N) (h : Heap) : Prop :=
  forall a,
    is_container (h a) = true \/ h a = VThunk (Thunk 1) \/ h a = VThunk (App 1) ->
    a ∈ U.



(** [I] speaks of the heap and of [seen] only. *)
Definition stable (I : Printer -> Prop) : Prop :=
  forall p p', heap p' = heap p -> seen p' = seen p -> I p -> I p'.

(** [f] changes neither the heap nor [seen]. *)
Definition quiet (f : Printer -> Printer) : Prop :=
  forall p, heap (f p) = heap p /\ seen (f p) = seen p.

(** [I] survives the heap that [coerceToStorePath] leaves. *)
Definition survives_coercion (state : EvalState) (I : Printer -> Prop) : Prop :=
  forall p i, I p -> I (set_heap (fst (coerceToStorePath state (heap p) i)) p).

(** [I] survives the heap that [print] leaves when it has forced, or has not
    forced, a value. *)
Definition survives_forcing (state : EvalState) (options : PrintOptions)
    (I : Printer -> Prop) : Prop :=
  forall p v, I p -> I (set_heap (fst (forced state options (heap p) v)) p).

(** [I] survives the heap that the test of the derivation leaves. *)
Definition survives_test (state : EvalState) (options : PrintOptions)
    (I : Printer -> Prop) : Prop :=
  forall p v, I p -> I (set_heap (fst (shortcut state options (heap p) v)) p).

(** [isDerivation] answers whenever [printAttrs] calls it. *)
Definition test_answers (state : EvalState) (options : PrintOptions) : Prop :=
  forall h v, exists h' b, shortcut state options h v = (h', inr b).

(** A value that is no function and no thunk of an unknown kind. *)
Definition known_kind (val : Value) : bool :=
  match val with
  | VFunction OtherFunction | VThunk OtherThunk => false
  | _ => true
  end.

(** No value of the heap is a function or a thunk of an unknown kind. *)
Definition known_kinds (h : Heap) : Prop :=
  forall a, known_kind (h a) = true.

(** An outcome with [J] holding of its state; an abort is among the
    outcomes only with [A], an exception only with [T]. *)
Definition outcome_within (A T : bool) (J : Printer -> Prop) (r : Outcome) : Prop :=
  match r with
  | Returned p => J p
  | Aborted p => A = true /\ J p
  | Thrown _ p => T = true /\ J p
  end.

(** From a state in [I], the method ends within its fuel, with an outcome
    within [A], [T] and [J]. *)
Definition ends (A T : bool) (I J : Printer -> Prop) (m : Method) : Prop :=
  forall p, I p -> exists r, m p = Some r /\ outcome_within A T J r.

Definition anything : Printer -> Prop := fun _ => True.

(** [seen] holds at least [s], and the heap has the property [Inv]. *)
Definition tracking (Inv : Heap -> Prop) (s : gset N) : Printer -> Prop :=
  fun p => (exists s', seen p = Some s' /\ s ⊆ s') /\ Inv (heap p).

Definition small_options : PrintOptions := with_maxDepth 5 forcing_options.

(** The state in which [printValue] starts the recursion. *)
Definition initial (options : PrintOptions) (h : Heap) (out : text) : Printer :=
  {| output := out; heap := h;
     seen := if trackRepeated options then Some ∅ else None;
     attrsPrinted := 0; listItemsPrinted := 0 |}.

Definition limited_options : PrintOptions := with_maxDepth 2 default_options.

Definition small_plain_options : PrintOptions := with_maxDepth 5 default_options.

Definition shared_start : Printer :=
  {| output := []; heap := heap_shared; seen := Some ∅;
     attrsPrinted := 0; listItemsPrinted := 0 |}.

From Stdlib Require Import Permutation.
From Stdlib Require Sorted.

(** ** Further functions of print.cc *)

(** The test on the first character in [printIdentifier]. *)
Definition isIdentifierStart (c : ascii) : bool :=
  is_lower c || is_upper c || Ascii.eqb c "_".

(** The character class of the loop in [printIdentifier]. *)
Definition isIdentifierChar (c : ascii) : bool :=
  is_lower c || is_upper c || is_digit c
  || Ascii.eqb c "_" || Ascii.eqb c "'" || Ascii.eqb c "-".

Section Identifiers.

Variable ansi : AnsiCodes.

(** [printIdentifier(str, s)]: the loop returns through
    [printLiteralString] at the first character outside the class, and the
    name is written as it is when there is none. *)
Definition printIdentifier (str : text) (s : string_view) : text :=
  match sv_chars s with
  | [] => str ++ [dquote; dquote]
  | c :: _ =>
      if isReservedKeyword (sv_chars s) then str ++ [dquote] ++ sv_chars s ++ [dquote]
      else if negb (isIdentifierStart c) then printLiteralString_unlimited ansi str s
      else if forallb isIdentifierChar (sv_chars s) then str ++ sv_chars s
      else printLiteralString_unlimited ansi str s
  end.

End Identifiers.

(** ** Notions for the further properties *)

(** The characters that [printLiteralString] may print with a backslash. *)
Definition needs_escape (c : ascii) : bool :=
  Ascii.eqb c dquote || Ascii.eqb c backslash || Ascii.eqb c newline
  || Ascii.eqb c carriage_return || Ascii.eqb c tab || Ascii.eqb c "$".

(** Reading a printed string back: a backslash and the character after it
    stand for one character. *)
Fixpoint unescape (t : text) : text :=
  match t with
  | [] => []
  | c :: rest =>
      if Ascii.eqb c backslash then
        match rest with
        | [] => [c]
        | d :: rest' =>
            (if Ascii.eqb d "n" then newline
             else if Ascii.eqb d "r" then carriage_return
             else if Ascii.eqb d "t" then tab
             else d) :: unescape rest'
        end
      else c :: unescape rest
  end.

(** The positions that the loop of [printLiteralString] dereferences for the
    characters [i], ..., [i + n - 1]: each of them, and the one behind it
    when the character is a dollar sign. *)
Definition read_positions (s : string_view) (i n : nat) : list nat :=
  concat (map (fun j => j :: (if Ascii.eqb (deref s j) "$" then [S j] else []))
            (seq i n)).

(** A value that [print] prints without a recursive call and without
    aborting. *)
Definition is_scalar (val : Value) : bool :=
  match val with
  | VAttrs _ | VList _ => false
  | VFunction OtherFunction | VThunk OtherThunk => false
  | _ => true
  end.


(** [lhs <= rhs] for a comparison [lt]: [rhs] is not less than [lhs]. *)
Definition not_after (lt : AttrPair -> AttrPair -> bool) (lhs rhs : AttrPair)
    : Prop :=
  lt rhs lhs = false.

(** A strict weak ordering, as [std::sort] requires of its comparison. *)
Definition strict_weak_order (lt : AttrPair -> AttrPair -> bool) : Prop :=
  (forall a, lt a a = false)
  /\ (forall a b c, lt a b = true -> lt b c = true -> lt a c = true)
  /\ (forall a b c, lt a b = false -> lt b a = false ->
                    lt b c = false -> lt c b = false ->
                    lt a c = false /\ lt c a = false).

(** [{ a = 1; b = 2; c = 3; }]: a set of integers. *)
Definition heap_flat_attrs : Heap :=
  heap_of [ VAttrs [(lit "c", 3); (lit "a", 1); (lit "b", 2)];
            VInt 1; VInt 2; VInt 3 ].

Definition flat_pairs : list AttrPair :=
  [(lit "a", 1); (lit "b", 2); (lit "c", 3)].

(** The vector [sorted] of [printAttrs], after the call of [std::sort]. *)
Definition print_order (options : PrintOptions) (attrs : list AttrPair)
    : list AttrPair :=
  if maxAttrs options =? SIZE_MAX then sort pair_lt attrs
  else sort ImportantFirstAttrNameCmp attrs.

(** Names in ascending order of their bytes. *)
Definition names_ascend (a b : AttrPair) : Prop :=
  text_lt (fst b) (fst a) = false.

(** [type] and [_type] before the other names, and ascending order among
    the former and among the latter. *)
Definition important_then_ascend (a b : AttrPair) : Prop :=
  (isImportantAttrName (fst b) = true -> isImportantAttrName (fst a) = true)
  /\ (isImportantAttrName (fst a) = isImportantAttrName (fst b) ->
      text_lt (fst b) (fst a) = false).

Definition limit_three : PrintOptions := with_maxAttrs 3 default_options.

Definition typed_pairs : list AttrPair :=
  [(lit "name", 1); (lit "_type", 2); (lit "a", 3); (lit "type", 4)].

(** A call that returns with the heap, [seen] and both counters as they
    were: only text has been written. *)
Definition only_writes (m : Method) (p : Printer) : Prop :=
  exists p',
    m p = Some (Returned p')
    /\ heap p' = heap p /\ seen p' = seen p
    /\ attrsPrinted p' = attrsPrinted p
    /\ listItemsPrinted p' = listItemsPrinted p.

(** [[ 1 <no value> 2 3 ]]: a list of integers with an empty slot. *)
Definition heap_flat_list : Heap :=
  heap_of [ VList [Some 1; None; Some 2; Some 3]; VInt 1; VInt 2; VInt 3 ].

Definition limit_two : PrintOptions := {|
  force := false; derivationPaths := false;
  maxDepth := SIZE_MAX; maxAttrs := 2; maxListItems := 2;
  maxStringLength := SIZE_MAX; ansiColors := false; trackRepeated := true
|}.

Definition flat_start (h : Heap) : Printer :=
  {| output := []; heap := h; seen := Some ∅;
     attrsPrinted := 0; listItemsPrinted := 0 |}.


(** A derivation whose [drvPath] is not a string. *)
Definition heap_bad_derivation : Heap :=
  heap_of [ VAttrs [(lit "drvPath", 1); (lit "type", 2)];
            VInt 5;
            VString (view_of (lit "derivation")) ].

(** * Verification *)

(** ** Machine arithmetic *)

Lemma size_inc_below (a m : N) : a < m -> m <= SIZE_MAX -> size_inc a = a + 1.
Proof.
  unfold size_inc, SIZE_MAX. intros Ha Hm.
  apply N.mod_small. change (2 ^ 64) with 18446744073709551616 in *. lia.
Qed.

Lemma to_unsigned_size_sub (a b : N) :
  b <= a -> a - b < 2 ^ 32 -> to_unsigned (size_sub a b) = a - b.
Proof.
  unfold to_unsigned, size_sub. intros Hba Hlt.
  replace (a + 2 ^ 64 - b) with (a - b + 1 * 2 ^ 64) by lia.
  rewrite N.Div0.mod_add.
  change (2 ^ 64) with 18446744073709551616 in *.
  change (2 ^ 32) with 4294967296 in *.
  rewrite (N.mod_small (a - b)) by lia.
  apply N.mod_small. lia.
Qed.

(** ** String literals *)

Section Literals.

Variable ansi : AnsiCodes.

Lemma colour_when (b : bool) (code out : text) :
  colour b code out = out ++ when b code.
Proof. destruct b; simpl; [reflexivity | now rewrite app_nil_r]. Qed.

Lemma printElided_notice (out : text) (value : N) (single plural : text) (c : bool) :
  printElided ansi out value single plural c
  = out ++ elision_notice ansi value single plural c.
Proof.
  unfold printElided, pluralize, elision_notice.
  rewrite !colour_when. now rewrite <- !app_assoc.
Qed.

Lemma printLiteralChar_str (s : string_view) (i : nat) (st : LiteralState) :
  ls_str (printLiteralChar s i st)
  = ls_str st ++ escape (deref s i) (deref s (S i)).
Proof.
  unfold printLiteralChar, escape.
  destruct (Ascii.eqb (deref s i) dquote) eqn:Eq.
  { apply Ascii.eqb_eq in Eq. now rewrite Eq. }
  destruct (Ascii.eqb (deref s i) backslash) eqn:Eb.
  { apply Ascii.eqb_eq in Eb. now rewrite Eb. }
  simpl orb. cbv iota.
  destruct (Ascii.eqb (deref s i) newline); [reflexivity |].
  destruct (Ascii.eqb (deref s i) carriage_return); [reflexivity |].
  destruct (Ascii.eqb (deref s i) tab); [reflexivity |].
  destruct (Ascii.eqb (deref s i) "$") eqn:Ed; [| reflexivity].
  apply Ascii.eqb_eq in Ed. rewrite Ed. simpl andb.
  now destruct (Ascii.eqb (deref s (S i)) "{").
Qed.

Lemma pieces_S (s : string_view) (i n : nat) :
  pieces s i (S n) = escape (deref s i) (deref s (S i)) ++ pieces s (S i) n.
Proof. reflexivity. Qed.

Lemma loop_whole (s : string_view) (M : N) (c : bool) (n : nat) :
  M <= SIZE_MAX ->
  forall i st,
    N.of_nat (i + n) <= M ->
    ls_str (printLiteralString_loop ansi s M c n i (N.of_nat i) st)
    = colour c (ANSI_NORMAL ansi) (ls_str st ++ pieces s i n ++ [dquote]).
Proof.
  intros HM. induction n as [| n IH]; intros i st Hle.
  - simpl. unfold pieces. simpl. reflexivity.
  - cbn [printLiteralString_loop].
    destruct (N.leb_spec M (N.of_nat i)) as [Hge | Hlt]; [lia |].
    rewrite (size_inc_below _ M) by assumption.
    replace (N.of_nat i + 1) with (N.of_nat (S i)) by lia.
    rewrite IH by (rewrite <- Nat.add_succ_comm in Hle; exact Hle).
    rewrite printLiteralChar_str, pieces_S. now rewrite <- !app_assoc.
Qed.

Lemma loop_cut (s : string_view) (M : N) (c : bool) (n : nat) :
  M <= SIZE_MAX ->
  forall i st,
    N.of_nat i <= M -> M < N.of_nat (i + n) ->
    ls_str (printLiteralString_loop ansi s M c n i (N.of_nat i) st)
    = printElided ansi
        (ls_str st ++ pieces s i (N.to_nat M - i) ++ [dquote; " "%char])
        (to_unsigned (size_sub (sv_length s) M)) (lit "byte") (lit "bytes") c.
Proof.
  intros HM. induction n as [| n IH]; intros i st Hle Hlt.
  - lia.
  - cbn [printLiteralString_loop].
    destruct (N.leb_spec M (N.of_nat i)) as [Hge | Hlt'].
    + assert (M = N.of_nat i) as -> by lia.
      rewrite Nat2N.id, Nat.sub_diag. reflexivity.
    + rewrite (size_inc_below _ M) by assumption.
      replace (N.of_nat i + 1) with (N.of_nat (S i)) by lia.
      rewrite IH by lia.
      rewrite printLiteralChar_str.
      replace (N.to_nat M - i)%nat with (S (N.to_nat M - S i)) by lia.
      rewrite pieces_S. now rewrite <- !app_assoc.
Qed.

(** A string within the limit is printed whole, every character escaped. *)
Lemma printLiteralString_whole (str : text) (s : string_view) (M : N) (c : bool) :
  M <= SIZE_MAX -> sv_length s <= M ->
  printLiteralString ansi str s M c
  = str ++ when c (ANSI_MAGENTA ansi) ++ [dquote]
    ++ escaped_prefix s (length (sv_chars s)) ++ [dquote]
    ++ when c (ANSI_NORMAL ansi).
Proof.
  intros HM Hle. unfold printLiteralString, printLiteralString_run.
  rewrite (loop_whole s M c _ HM 0%nat) by exact Hle.
  cbn [ls_str]. rewrite !colour_when. unfold escaped_prefix.
  now rewrite <- !app_assoc.
Qed.

(** A string beyond the limit is cut after [M] characters; the count of the
    notice is the one [printElided] receives. *)
Lemma printLiteralString_cut (str : text) (s : string_view) (M : N) (c : bool) :
  M <= SIZE_MAX -> M < sv_length s ->
  printLiteralString ansi str s M c
  = str ++ when c (ANSI_MAGENTA ansi) ++ [dquote]
    ++ escaped_prefix s (N.to_nat M) ++ [dquote; " "%char]
    ++ elision_notice ansi (to_unsigned (size_sub (sv_length s) M))
         (lit "byte") (lit "bytes") c.
Proof.
  intros HM Hlt. unfold printLiteralString, printLiteralString_run.
  rewrite (loop_cut s M c _ HM 0%nat) by (simpl; lia || exact Hlt).
  cbn [ls_str]. rewrite printElided_notice, !colour_when, Nat.sub_0_r.
  unfold escaped_prefix. now rewrite <- !app_assoc.
Qed.

End Literals.

(** C3 (as amended).  A string of length L printed with a limit M < L, where
    the L - M remaining bytes can be counted in an [unsigned int], is
    rendered as the opening quote, exactly the first M characters (escaped),
    the closing quote, and a notice that reports L - M, with the word byte
    if and only if L - M is 1. *)
Theorem truncated_string_notice (ansi : AnsiCodes) (str : text)
    (string : string_view) (maxLength : N) (ansiColors : bool) :
  sv_length string <= SIZE_MAX ->
  maxLength < sv_length string ->
  sv_length string - maxLength < 2 ^ 32 ->
  prints_truncated ansi str string maxLength ansiColors.
Proof.
  intros HL HM Hfit. unfold prints_truncated, truncated_rendering.
  rewrite printLiteralString_cut by lia.
  rewrite to_unsigned_size_sub by (assumption || lia).
  reflexivity.
Qed.

Lemma truncated_string_notice_witness :
  sv_length (view_of (lit "a${b}c")) <= SIZE_MAX
  /\ 5 < sv_length (view_of (lit "a${b}c"))
  /\ printLiteralString nix_ansi [] (view_of (lit "a${b}c")) 5 false
     = (dquote :: lit "a\${b}") ++ (dquote :: lit " «1 byte elided»").
Proof.
  split; [now vm_compute |]. split; [now vm_compute |].
  exact (truncated_string_notice nix_ansi [] (view_of (lit "a${b}c")) 5 false
           ltac:(now vm_compute) ltac:(now vm_compute) ltac:(now vm_compute)).
Defined.

Lemma giant_string_length : sv_length giant_string = 2 ^ 32 + 1.
Proof.
  unfold sv_length, giant_string, view_of. cbn [sv_chars].
  rewrite repeat_length. apply N2Nat.id.
Qed.

(** C3, counterexample.  With the limit 0, the string of 2^32 + 1 characters
    is rendered with a notice for 1 byte: the count does not fit the
    [unsigned int] parameter of [printElided]. *)
Lemma giant_string_count_wraps :
  0 < sv_length giant_string
  /\ printLiteralString nix_ansi [] giant_string 0 false
     = [dquote; dquote] ++ lit " «1 byte elided»"
  /\ ~ prints_truncated nix_ansi [] giant_string 0 false.
Proof.
  assert (Hout : printLiteralString nix_ansi [] giant_string 0 false
                 = [dquote; dquote] ++ lit " «1 byte elided»").
  { rewrite printLiteralString_cut; rewrite ?giant_string_length;
      [| now vm_compute | now vm_compute].
    change (N.to_nat 0) with 0%nat.
    change (escaped_prefix giant_string 0) with (@nil ascii).
    now vm_compute. }
  split; [rewrite giant_string_length; now vm_compute |].
  split; [exact Hout |].
  unfold prints_truncated, truncated_rendering. rewrite Hout.
  rewrite giant_string_length.
  change (N.to_nat 0) with 0%nat.
  change (escaped_prefix giant_string 0) with (@nil ascii).
  vm_compute. discriminate.
Qed.

(** C4.  The last character of the view is a dollar sign and the byte behind
    the view is an opening brace: the dollar sign, which is not followed by
    a brace inside the string, is printed with a backslash.  The same
    string in storage that ends with it is printed as it is. *)
Theorem trailing_dollar_escaped :
  sv_chars dollar_before_brace = ["$"%char]
  /\ printLiteralString nix_ansi [] dollar_before_brace SIZE_MAX false
     = [dquote; backslash; "$"%char; dquote]
  /\ printLiteralString nix_ansi [] (view_of ["$"%char]) SIZE_MAX false
     = [dquote; "$"%char; dquote].
Proof. repeat split; now vm_compute. Qed.

(** C10.  For the one-character string [$] the loop dereferences position 0
    and then position 1, which is one past the last character. *)
Theorem lookahead_reads_past_end :
  printLiteralString_reads nix_ansi (view_of (lit "$")) SIZE_MAX false
  = [0%nat; 1%nat]
  /\ length (sv_chars (view_of (lit "$"))) = 1%nat.
Proof. split; now vm_compute. Qed.

(** ** Attribute names *)

Lemma char_in_spec (lo hi c : ascii) :
  char_in lo hi c = true <-> N_of_ascii lo <= N_of_ascii c <= N_of_ascii hi.
Proof.
  unfold char_in. rewrite Bool.andb_true_iff, !N.leb_le. reflexivity.
Qed.

Lemma isVarChar_spec (c : ascii) :
  isVarChar c = true
  <-> letter c \/ digit c \/ c = "_"%char \/ c = "'"%char \/ c = "-"%char.
Proof.
  unfold isVarChar, is_lower, is_upper, is_digit, letter, digit.
  rewrite !Bool.orb_true_iff, !char_in_spec, !Ascii.eqb_eq. tauto.
Qed.

Lemma isReservedKeyword_spec (s : text) :
  isReservedKeyword s = true <-> In s reservedKeywords.
Proof.
  unfold isReservedKeyword. rewrite bool_decide_eq_true.
  apply list_elem_of_In.
Qed.

Lemma isVarName_spec (s : text) : isVarName s = true <-> bare_key s.
Proof.
  unfold bare_key. destruct s as [| c s'].
  { simpl. split; [discriminate | intros [H _]; now elim H]. }
  cbn [isVarName head].
  destruct (isReservedKeyword (c :: s')) eqn:Er.
  { apply isReservedKeyword_spec in Er.
    split; [discriminate | intros (_ & H & _); now elim H]. }
  assert (Hr : ~ In (c :: s') reservedKeywords).
  { intros H. apply isReservedKeyword_spec in H. congruence. }
  destruct (is_digit c || Ascii.eqb c "-" || Ascii.eqb c "'") eqn:Ef.
  { split; [discriminate |]. intros (_ & _ & H & _).
    destruct (H c eq_refl) as (Hd & Hh & Ha).
    rewrite !Bool.orb_true_iff in Ef. unfold is_digit in Ef.
    rewrite char_in_spec, !Ascii.eqb_eq in Ef. unfold digit in Hd. tauto. }
  rewrite !Bool.orb_false_iff in Ef. destruct Ef as [[Hd Hh] Ha].
  rewrite forallb_forall, Forall_forall.
  split.
  - intros H. split; [discriminate |]. split; [exact Hr |]. split.
    + intros c' [= <-]. unfold digit. rewrite <- (char_in_spec "0" "9").
      fold (is_digit c). rewrite Hd.
      apply Ascii.eqb_neq in Hh, Ha. auto.
    + intros x Hx. apply isVarChar_spec. now apply H.
  - intros (_ & _ & _ & H) x Hx. apply isVarChar_spec. now apply H.
Qed.

(** C7.  An attribute name is printed bare exactly when it is not empty, is
    no reserved keyword, does not start with a digit, a hyphen or an
    apostrophe, and consists of letters, digits, underscores, apostrophes
    and hyphens; any other name is printed as a string literal between
    double quotes, with its characters escaped.  The name foo-bar'2 is
    printed bare, the names 2bad and if are quoted; or is printed bare. *)
Theorem attribute_name_quoting (ansi : AnsiCodes) (str : text) (name : string_view) :
  sv_length name <= SIZE_MAX ->
  (isVarName (sv_chars name) = true <-> bare_key (sv_chars name))
  /\ (bare_key (sv_chars name) ->
      printAttributeName ansi str name = str ++ sv_chars name)
  /\ (~ bare_key (sv_chars name) ->
      printAttributeName ansi str name
      = str ++ [dquote] ++ escaped_prefix name (length (sv_chars name)) ++ [dquote])
  /\ printAttributeName ansi [] (view_of (lit "foo-bar'2")) = lit "foo-bar'2"
  /\ printAttributeName ansi [] (view_of (lit "2bad")) = [dquote] ++ lit "2bad" ++ [dquote]
  /\ printAttributeName ansi [] (view_of (lit "if")) = [dquote] ++ lit "if" ++ [dquote]
  /\ printAttributeName ansi [] (view_of (lit "or")) = lit "or".
Proof.
  intros Hlen. split; [apply isVarName_spec |]. split; [| split].
  - intros H. apply isVarName_spec in H. unfold printAttributeName. now rewrite H.
  - intros H. unfold printAttributeName, printLiteralString_unlimited.
    destruct (isVarName (sv_chars name)) eqn:E.
    + apply isVarName_spec in E. contradiction.
    + rewrite printLiteralString_whole by (reflexivity || exact Hlen || (now vm_compute)).
      simpl when. now rewrite app_nil_r.
  - repeat split; now vm_compute.
Qed.

Lemma attribute_name_quoting_witness :
  sv_length (view_of (lit "a b")) <= SIZE_MAX
  /\ printAttributeName nix_ansi [] (view_of (lit "a b"))
     = [dquote] ++ lit "a b" ++ [dquote].
Proof.
  split; [now vm_compute |].
  refine (proj1 (proj2 (proj2
    (attribute_name_quoting nix_ansi [] (view_of (lit "a b")) _))) _).
  - now vm_compute.
  - intros (_ & _ & _ & H). rewrite Forall_forall in H.
    specialize (H " "%char ltac:(vm_compute; auto)).
    unfold letter, digit in H.
    repeat match goal with H : _ \/ _ |- _ => destruct H end;
      try discriminate; cbn in *; lia.
Defined.

(** ** The printer: one step *)

Section Steps.

Variable ansi : AnsiCodes.
Variable state : EvalState.
Variable options : PrintOptions.

Lemma set_heap_same (p : Printer) : set_heap (heap p) p = p.
Proof. now destruct p. Qed.

(** [print] forces the value, prints the error if there is one, and
    otherwise looks at the forced value. *)
Lemma print_unfold (fuel : nat) (v : Addr) (depth : N) (p : Printer) :
  print ansi state options (S fuel) v depth p
  = match forced state options (heap p) v with
    | (h', Some e) => Some (Returned (printError_ ansi options e (set_heap h' p)))
    | (h', None) =>
        dispatch ansi state options (print ansi state options fuel) v depth
          (set_heap h' p)
    end.
Proof.
  unfold forced. cbn [print]. destruct (force options).
  - unfold force_value. now destruct (forceValue state (heap p) v) as [h' [e |]].
  - now rewrite set_heap_same.
Qed.

Lemma coloured_output (code t : text) (p : Printer) :
  output (coloured ansi options code t p)
  = output p ++ when (ansiColors options) code ++ t
    ++ when (ansiColors options) (ANSI_NORMAL ansi).
Proof.
  unfold coloured, write. cbn [output]. rewrite !colour_when.
  now rewrite <- !app_assoc.
Qed.

Lemma seen_insert_tracked (v : Addr) (p : Printer) (s : gset N) :
  seen p = Some s ->
  seen_insert v p = (bool_decide (v ∈ s), set_seen (Some ({[ v ]} ∪ s)) p).
Proof. intros H. unfold seen_insert. now rewrite H. Qed.

Lemma seen_insert_untracked (v : Addr) (p : Printer) :
  seen p = None -> seen_insert v p = (false, p).
Proof. intros H. unfold seen_insert. now rewrite H. Qed.

Lemma seen_insert_heap (v : Addr) (p p1 : Printer) (b : bool) :
  seen_insert v p = (b, p1) ->
  heap p1 = heap p /\ output p1 = output p
  /\ attrsPrinted p1 = attrsPrinted p /\ listItemsPrinted p1 = listItemsPrinted p.
Proof.
  unfold seen_insert. destruct (seen p); intros [= <- <-]; now repeat split.
Qed.

End Steps.

(** ** Completion *)

Lemma quiet_write (g : text -> text) : quiet (write g).
Proof. intros p. now split. Qed.

Lemma quiet_incr_attrsPrinted : quiet incr_attrsPrinted.
Proof. intros p. now split. Qed.

Lemma quiet_incr_listItemsPrinted : quiet incr_listItemsPrinted.
Proof. intros p. now split. Qed.

Lemma stable_anything : stable anything.
Proof. intros p p' _ _ _. exact I. Qed.

Lemma stable_tracking (Inv : Heap -> Prop) (s : gset N) : stable (tracking Inv s).
Proof.
  intros p p' Hh Hs [Hseen Hcont]. unfold tracking.
  rewrite Hh, Hs. now split.
Qed.

Create HintDb printer.

#[global] Hint Resolve quiet_write quiet_incr_attrsPrinted quiet_incr_listItemsPrinted
  stable_anything stable_tracking : printer.

Section Completion.

Variable ansi : AnsiCodes.
Variable state : EvalState.
Variable options : PrintOptions.
Variables A T : bool.

Lemma ends_lift (I J : Printer -> Prop) (f : Printer -> Printer) :
  (forall p, I p -> J (f p)) -> ends A T I J (lift f).
Proof. intros H p Hp. exists (Returned (f p)). split; [reflexivity | now apply H]. Qed.

Lemma ends_seq (I : Printer -> Prop) (a b : Method) :
  ends A T I I a -> ends A T I I b -> ends A T I I (a >>> b).
Proof.
  intros Ha Hb p Hp. destruct (Ha p Hp) as (r & Hr & Hout).
  unfold andThen. rewrite Hr. destruct r as [p' | p' | e p'].
  - now apply Hb.
  - now exists (Aborted p').
  - now exists (Thrown e p').
Qed.

Lemma ends_weaken (I I' J J' : Printer -> Prop) (m : Method) :
  (forall p, I' p -> I p) -> (forall p, J p -> J' p) ->
  ends A T I J m -> ends A T I' J' m.
Proof.
  intros HI HJ Hm p Hp. destruct (Hm p (HI p Hp)) as (r & Hr & Hout).
  exists r. split; [exact Hr |]. destruct r; simpl in *; intuition auto.
Qed.

Lemma ends_quiet (I : Printer -> Prop) (f : Printer -> Printer) :
  stable I -> quiet f -> ends A T I I (lift f).
Proof.
  intros HI Hf. apply ends_lift. intros p Hp.
  destruct (Hf p) as [Hh Hs]. exact (HI p (f p) Hh Hs Hp).
Qed.

Ltac quiet_step :=
  apply ends_quiet; [assumption | auto with printer; intros ?; now split].

Lemma printAttrs_loop_ends (I : Printer -> Prop)
    (rec : Addr -> N -> Method) (size depth : N) (sorted : list AttrPair) :
  stable I ->
  (forall a, ends A T I I (rec a (size_inc depth))) ->
  ends A T I I (printAttrs_loop ansi options rec size depth sorted).
Proof.
  intros HI Hrec. induction sorted as [| i rest IH].
  - simpl. unfold skip. now apply ends_lift.
  - intros p Hp. cbn [printAttrs_loop].
    destruct (maxAttrs options <=? attrsPrinted p).
    + revert p Hp. quiet_step.
    + revert p Hp.
      repeat (apply ends_seq); try quiet_step; [apply Hrec | exact IH].
Qed.

Lemma printList_loop_ends (I : Printer -> Prop)
    (rec : Addr -> N -> Method) (size depth : N) (items : list (option Addr)) :
  stable I ->
  (forall a, ends A T I I (rec a (size_inc depth))) ->
  ends A T I I (printList_loop ansi options rec size depth items).
Proof.
  intros HI Hrec. induction items as [| elem rest IH].
  - simpl. unfold skip. now apply ends_lift.
  - intros p Hp. cbn [printList_loop].
    destruct (maxListItems options <=? listItemsPrinted p).
    + revert p Hp. quiet_step.
    + revert p Hp.
      repeat (apply ends_seq); try quiet_step; [| exact IH].
      destruct elem as [e |]; [apply Hrec | quiet_step].
Qed.

(** [printDerivation] returns: what its [try] block throws is caught. *)
Lemma printDerivation_ends (I : Printer -> Prop) (attrs : list AttrPair) :
  stable I -> survives_coercion state I ->
  ends A T I I (printDerivation ansi state options attrs).
Proof.
  intros HI Hco p Hp. unfold printDerivation, try_catch, drvStorePath.
  destruct (find_attr (sDrvPath state) attrs) as [i |].
  - specialize (Hco p i Hp).
    destruct (coerceToStorePath state (heap p) i) as [h [e | storePath]];
      cbn [fst] in Hco; revert Hco; generalize (set_heap h p); quiet_step.
  - revert p Hp. quiet_step.
Qed.

Lemma printFunction_ends (I : Printer -> Prop) (f : FunctionKind) :
  stable I -> A = true \/ f <> OtherFunction ->
  ends A T I I (printFunction ansi options f).
Proof.
  intros HI HA. destruct f as [fun_ | primOp | primOp |]; cbn [printFunction];
    try quiet_step.
  destruct HA as [HA | HA]; [| now elim HA].
  intros p Hp. eexists. split; [reflexivity |]. split; [exact HA |].
  revert Hp. apply HI; reflexivity.
Qed.

Lemma printThunk_ends (I : Printer -> Prop) (t : ThunkKind) :
  stable I -> A = true \/ t <> OtherThunk ->
  ends A T I I (printThunk ansi options t).
Proof.
  intros HI HA. destruct t; cbn [printThunk]; try quiet_step.
  destruct HA as [HA | HA]; [| now elim HA].
  intros p Hp. eexists. split; [reflexivity |]. now split.
Qed.

End Completion.


Section Recursion.

Variable ansi : AnsiCodes.
Variable state : EvalState.
Variable options : PrintOptions.
Variables A T : bool.

Lemma printAttrs_ends (I : Printer -> Prop) (rec : Addr -> N -> Method)
    (v : Addr) (attrs : list AttrPair) (depth : N) (p p1 : Printer) (b : bool) :
  stable I -> survives_coercion state I -> survives_test state options I ->
  T = true \/ test_answers state options ->
  seen_insert v p = (b, p1) -> I p1 ->
  (b = false -> depth < maxDepth options ->
   exists I1, stable I1 /\ survives_test state options I1 /\ I1 p1
     /\ (forall a, ends A T I1 I1 (rec a (size_inc depth)))
     /\ (forall q, I1 q -> I q)) ->
  exists r, printAttrs ansi state options rec v attrs depth p = Some r
            /\ outcome_within A T I r.
Proof.
  intros HI Hco Hte HT Hins Hp1 Hrec. unfold printAttrs. rewrite Hins.
  destruct b.
  { generalize p1 Hp1. apply ends_quiet; [assumption | intros ?; now split]. }
  pose proof (Hte p1 v Hp1) as Hp2. unfold shortcut in Hp2.
  destruct (derivationTest state options (heap p1) v) as [h [e | [|]]] eqn:Htest;
    cbn [fst] in Hp2.
  - destruct HT as [HT | Hans].
    + eexists. split; [reflexivity |]. now split.
    + destruct (Hans (heap p1) v) as (h' & b' & Hb). unfold shortcut in Hb.
      congruence.
  - now apply printDerivation_ends.
  - destruct (N.ltb_spec depth (maxDepth options)) as [Hlt | Hge].
    + destruct (Hrec eq_refl Hlt) as (I1 & HI1 & Hte1 & Hq1 & Hr & Hback).
      pose proof (Hte1 p1 v Hq1) as Hq2. unfold shortcut in Hq2.
      rewrite Htest in Hq2. cbn [fst] in Hq2.
      refine (ends_weaken A T I1 I1 I1 I _ (fun q H => H) Hback _ _ Hq2).
      repeat (apply ends_seq);
        try (apply ends_quiet; [assumption | intros ?; now split]).
      now apply printAttrs_loop_ends.
    + generalize (set_heap h p1) Hp2.
      apply ends_quiet; [assumption | intros ?; now split].
Qed.

Lemma printList_ends (I : Printer -> Prop) (rec : Addr -> N -> Method)
    (v : Addr) (items : list (option Addr)) (depth : N) (p p1 : Printer) (b : bool) :
  stable I -> I p ->
  (items <> [] -> seen_insert v p = (b, p1)) ->
  (items = [] -> (b, p1) = (false, p)) ->
  I p1 ->
  (b = false -> items <> [] -> depth < maxDepth options ->
   exists I1, stable I1 /\ I1 p1
     /\ (forall a, ends A T I1 I1 (rec a (size_inc depth)))
     /\ (forall q, I1 q -> I q)) ->
  exists r, printList ansi options rec v items depth p = Some r
            /\ outcome_within A T I r.
Proof.
  intros HI Hp Hins Hnil Hp1 Hrec. unfold printList.
  assert (Hpair : match items with [] => (false, p) | _ :: _ => seen_insert v p end
                  = (b, p1)).
  { destruct items; [symmetry; now apply Hnil | now apply Hins]. }
  rewrite Hpair. destruct b.
  { generalize p1 Hp1. apply ends_quiet; [assumption | intros ?; now split]. }
  destruct (N.ltb_spec depth (maxDepth options)) as [Hlt | Hge].
  - destruct items as [| elem rest].
    + injection (Hnil eq_refl) as ->.
      generalize p Hp.
      repeat (apply ends_seq);
        apply ends_quiet; solve [assumption | intros ?; now split].
    + destruct (Hrec eq_refl ltac:(discriminate) Hlt) as (I1 & HI1 & Hq & Hr & Hback).
      refine (ends_weaken A T I1 I1 I1 I _ (fun q H => H) Hback _ p1 Hq).
      repeat (apply ends_seq);
        try (apply ends_quiet; [assumption | intros ?; now split]).
      now apply printList_loop_ends.
  - generalize p1 Hp1.
    repeat (apply ends_seq);
      apply ends_quiet; solve [assumption | intros ?; now split].
Qed.

(** One level of [print], given what the recursive calls do. *)
Lemma print_step_ends (I : Printer -> Prop) (fuel : nat) (v : Addr) (depth : N) :
  stable I -> survives_coercion state I -> survives_forcing state options I ->
  survives_test state options I ->
  T = true \/ test_answers state options ->
  A = true \/ (forall p, I p -> known_kinds (heap p)) ->
  (forall p p1 b, I p -> seen_insert v p = (b, p1) -> I p1) ->
  (forall p p1, I p -> is_container (heap p v) = true ->
     seen_insert v p = (false, p1) -> depth < maxDepth options ->
     exists I1, stable I1 /\ survives_test state options I1 /\ I1 p1
       /\ (forall a, ends A T I1 I1 (print ansi state options fuel a (size_inc depth)))
       /\ (forall q, I1 q -> I q)) ->
  ends A T I I (print ansi state options (S fuel) v depth).
Proof.
  intros HI Hco Hfo Hte HT HA Hins Hrec p Hp. rewrite print_unfold.
  specialize (Hfo p v Hp).
  destruct (forced state options (heap p) v) as [h' [e |]]; cbn [fst] in Hfo.
  { revert Hfo. generalize (set_heap h' p).
    apply ends_quiet; [assumption | intros ?; now split]. }
  revert Hfo. generalize (set_heap h' p). clear p Hp h'. intros p Hp.
  unfold dispatch. destruct (heap p v) as [| | | | | | attrs | items | f | t | |] eqn:Hv;
    try (revert p Hp Hv; intros p Hp _; revert p Hp;
         apply ends_quiet; [assumption | intros ?; now split]).
  - destruct (seen_insert v p) as [b p1] eqn:Hs.
    apply (printAttrs_ends I _ v attrs depth p p1 b); auto.
    + now apply (Hins p p1 b).
    + intros -> Hlt. apply (Hrec p p1); auto. now rewrite Hv.
  - destruct items as [| elem rest].
    + apply (printList_ends I _ v [] depth p p false); auto.
      * intros H; now elim H.
      * intros _ H; now elim H.
    + destruct (seen_insert v p) as [b p1] eqn:Hs.
      apply (printList_ends I _ v (elem :: rest) depth p p1 b); auto.
      * discriminate.
      * now apply (Hins p p1 b).
      * intros -> _ Hlt.
        destruct (Hrec p p1 Hp ltac:(now rewrite Hv) Hs Hlt)
          as (I1 & H1 & _ & H2 & H3 & H4).
        exists I1. auto.
  - apply printFunction_ends; [assumption | | assumption].
    destruct HA as [HA | HA]; [now left | right].
    intros ->. specialize (HA p Hp v). rewrite Hv in HA. discriminate HA.
  - apply printThunk_ends; [assumption | | assumption].
    destruct HA as [HA | HA]; [now left | right].
    intros ->. specialize (HA p Hp v). rewrite Hv in HA. discriminate HA.
Qed.

(** With more fuel than [maxDepth] leaves levels below [depth], [print]
    ends, and keeps every property of the heap and of [seen] that the
    calls of the evaluator and the insertion into [seen] keep. *)
Lemma print_ends_by_depth (I : Printer -> Prop) :
  stable I -> survives_coercion state I -> survives_forcing state options I ->
  survives_test state options I ->
  T = true \/ test_answers state options ->
  A = true \/ (forall p, I p -> known_kinds (heap p)) ->
  (forall v p p1 b, I p -> seen_insert v p = (b, p1) -> I p1) ->
  maxDepth options <= SIZE_MAX ->
  forall (fuel : nat) (v : Addr) (depth : N),
    (N.to_nat (maxDepth options - depth) < fuel)%nat ->
    ends A T I I (print ansi state options fuel v depth).
Proof.
  intros HI Hco Hfo Hte HT HA Hins Hmax.
  induction fuel as [| fuel IH]; intros v depth Hfuel; [lia |].
  apply print_step_ends; auto.
  - intros p p1 b. apply Hins.
  - intros p p1 Hp _ Hs Hlt. exists I.
    split; [exact HI |]. split; [exact Hte |].
    split; [now apply (Hins v p p1 false) |]. split; [| auto].
    intros a. apply IH.
    rewrite (size_inc_below depth (maxDepth options)) by assumption. lia.
Qed.

(** With more fuel than there are containers not yet in [seen], [print]
    ends, however deep the limit is. *)
Lemma print_ends_by_seen (Inv : Heap -> Prop) (U : gset N) :
  evaluator_preserves state Inv ->
  (forall h, Inv h -> containers_in U h) ->
  T = true \/ test_answers state options ->
  A = true \/ (forall h, Inv h -> known_kinds h) ->
  forall (fuel : nat) (s : gset N) (v : Addr) (depth : N),
    (size (U ∖ s) < fuel)%nat ->
    ends A T (tracking Inv s) (tracking Inv s)
      (print ansi state options fuel v depth).
Proof.
  intros Hev HU HT HA.
  assert (Htest : forall s, survives_test state options (tracking Inv s)).
  { intros s p a [Hs Hc]. split; [exact Hs |]. cbn [heap set_heap].
    unfold shortcut, derivationTest.
    destruct (force options && derivationPaths options); [now apply Hev | exact Hc]. }
  induction fuel as [| fuel IH]; intros s v depth Hfuel; [lia |].
  apply print_step_ends; auto with printer.
  - intros p i [Hs Hc]. split; [exact Hs |]. cbn [heap set_heap]. now apply Hev.
  - intros p a [Hs Hc]. split; [exact Hs |]. cbn [heap set_heap].
    unfold forced. destruct (force options); [now apply Hev | exact Hc].
  - destruct HA as [HA | HA]; [now left | right].
    intros p [_ Hc]. now apply HA.
  - intros p p1 b [(s' & Hs & Hsub) Hc] Hins.
    rewrite (seen_insert_tracked _ _ _ Hs) in Hins. injection Hins as _ <-.
    split; [| exact Hc]. exists ({[ v ]} ∪ s'). split; [reflexivity | set_solver].
  - intros p p1 [(s' & Hs & Hsub) Hc] Hv Hins Hlt.
    rewrite (seen_insert_tracked _ _ _ Hs) in Hins. injection Hins as Hb <-.
    apply bool_decide_eq_false in Hb. pose proof (HU _ Hc v Hv) as HvU.
    exists (tracking Inv ({[ v ]} ∪ s')).
    split; [auto with printer |]. split; [apply Htest |]. split.
    { split; [| assumption]. exists ({[ v ]} ∪ s'). now split. }
    split.
    + intros a. apply IH.
      assert (size (U ∖ ({[ v ]} ∪ s')) < size (U ∖ s'))%nat
        by (apply subset_size; set_solver).
      assert (size (U ∖ s') <= size (U ∖ s))%nat
        by (apply subseteq_size; set_solver).
      lia.
    + intros q [(s'' & Hs'' & Hsub'') Hc'']. split; [| exact Hc''].
      exists s''. split; [exact Hs'' | set_solver].
Qed.

End Recursion.

(** ** The claims about the printer *)

Section Nodes.

Variable ansi : AnsiCodes.
Variable state : EvalState.
Variable options : PrintOptions.

Lemma printValue_initial (fuel : nat) (h : Heap) (out : text) (v : Addr) :
  printValue ansi state options fuel h out v
  = print ansi state options fuel v 0 (initial options h out).
Proof. reflexivity. Qed.


(** A container whose address is in [seen] is printed as the marker. *)
Lemma print_repeated (fuel : nat) (v : Addr) (depth : N) (p : Printer)
    (s : gset N) (h' : Heap) :
  seen p = Some s -> v ∈ s ->
  forced state options (heap p) v = (h', None) ->
  is_container (h' v) = true ->
  print ansi state options (S fuel) v depth p
  = Some (Returned (printRepeated ansi options (set_heap h' p))).
Proof.
  intros Hs Hin Hf Hc. rewrite print_unfold, Hf. unfold dispatch.
  cbn [heap set_heap].
  assert (Hins : seen_insert v (set_heap h' p) = (true, set_heap h' p)).
  { rewrite (seen_insert_tracked v _ s) by exact Hs.
    rewrite bool_decide_eq_true_2 by exact Hin.
    replace ({[ v ]} ∪ s) with s by set_solver.
    f_equal. destruct p. cbn in *. now subst. }
  destruct (h' v) as [| | | | | | attrs | [| elem rest] | | | |];
    try discriminate Hc.
  - unfold printAttrs. now rewrite Hins.
  - unfold printList. now rewrite Hins.
Qed.

(** An empty list is printed as a pair of brackets whether or not its
    address is in [seen], and [seen] stays as it is. *)
Lemma print_empty_list (fuel : nat) (v : Addr) (depth : N) (p : Printer) (h' : Heap) :
  forced state options (heap p) v = (h', None) ->
  h' v = VList [] ->
  exists p',
    print ansi state options (S fuel) v depth p = Some (Returned p')
    /\ output p'
       = output p ++ (if depth <? maxDepth options then lit "[ ]" else lit "[ ... ]")
    /\ seen p' = seen p.
Proof.
  intros Hf Hv. rewrite print_unfold, Hf. unfold dispatch.
  cbn [heap set_heap]. rewrite Hv. unfold printList, andThen, lift.
  destruct (depth <? maxDepth options); eexists; (split; [reflexivity |]);
    cbn [output seen emit write set_heap skip id]; rewrite <- ?app_assoc; now split.
Qed.

End Nodes.

Lemma toy_force_within (U : gset N) (h : Heap) (a : Addr) :
  lazily_within U h -> lazily_within U (fst (toy_forceValue h a)).
Proof.
  intros Hc. unfold toy_forceValue.
  assert (Hset : forall val,
            (is_container val = true \/ val = VThunk (Thunk 1)
             \/ val = VThunk (App 1) -> a ∈ U) ->
            lazily_within U (heap_set h a val)).
  { intros val Hval a'. unfold heap_set.
    destruct (N.eqb_spec a' a) as [-> |]; [exact Hval | apply Hc]. }
  destruct (h a) as [| | | | | | | | | [| expr | expr |] | |] eqn:Ha;
    cbn [fst]; try exact Hc;
    destruct expr as [| [q | q |]]; cbn [toy_eval fst]; try exact Hc;
    apply Hset;
    try (intros [H | [H | H]]; discriminate H);
    intros _; apply Hc; rewrite Ha; auto.
Qed.

Lemma toy_evaluator_preserves (U : gset N) :
  evaluator_preserves toy_state (lazily_within U).
Proof.
  intros h a Hc. split; [| split].
  - now apply toy_force_within.
  - cbn [coerceToStorePath toy_state]. unfold toy_coerceToStorePath.
    now destruct (h a).
  - cbn [isDerivation toy_state]. unfold toy_isDerivation.
    destruct (h a) as [| | | | | | attrs | | | | |]; try exact Hc.
    destruct (find_attr (lit "type") attrs) as [t |]; [| exact Hc].
    pose proof (toy_force_within U h t Hc) as Ht.
    now destruct (toy_forceValue h t) as [h' [e |]].
Qed.

Lemma lazily_within_containers (U : gset N) (h : Heap) :
  lazily_within U h -> containers_in U h.
Proof. intros H a Ha. apply H. now left. Qed.

Lemma heap_lazy_cycle_within : lazily_within {[ 0; 1 ]} heap_lazy_cycle.
Proof.
  intros a. unfold heap_lazy_cycle, heap_of.
  destruct (N.to_nat a) as [| [| [| n]]] eqn:E; cbn;
    try (intros [H | [H | H]]; discriminate H); intros _.
  - assert (a = 0) as -> by lia. set_solver.
  - assert (a = 1) as -> by lia. set_solver.
Qed.

Lemma toy_force_known (h : Heap) (a : Addr) :
  known_kinds h -> known_kinds (fst (toy_forceValue h a)).
Proof.
  intros Hk. unfold toy_forceValue.
  assert (Hset : forall val, known_kind val = true ->
                 known_kinds (heap_set h a val)).
  { intros val Hval a'. unfold heap_set.
    destruct (N.eqb_spec a' a); [exact Hval | apply Hk]. }
  destruct (h a) as [| | | | | | | | | [| expr | expr |] | |];
    cbn [fst]; try exact Hk;
    destruct expr as [| [q | q |]]; cbn [toy_eval fst]; try exact Hk;
    now apply Hset.
Qed.

Lemma toy_evaluator_known : evaluator_preserves toy_state known_kinds.
Proof.
  intros h a Hk. split; [| split].
  - now apply toy_force_known.
  - cbn [coerceToStorePath toy_state]. unfold toy_coerceToStorePath.
    now destruct (h a).
  - cbn [isDerivation toy_state]. unfold toy_isDerivation.
    destruct (h a) as [| | | | | | attrs | | | | |]; try exact Hk.
    destruct (find_attr (lit "type") attrs) as [t |]; [| exact Hk].
    pose proof (toy_force_known h t Hk) as Ht.
    now destruct (toy_forceValue h t) as [h' [e |]].
Qed.

Lemma heap_invalid_known : known_kinds heap_invalid.
Proof.
  intros a. unfold heap_invalid, heap_of.
  now destruct (N.to_nat a) as [| [| [| [| n]]]].
Qed.

(** [print] ends when the evaluator keeps a property of the heap. *)
Lemma print_ends_with_invariant (ansi : AnsiCodes) (state : EvalState)
    (options : PrintOptions) (A T : bool) (Inv : Heap -> Prop) :
  evaluator_preserves state Inv ->
  T = true \/ test_answers state options ->
  A = true \/ (forall h, Inv h -> known_kinds h) ->
  maxDepth options <= SIZE_MAX ->
  forall (fuel : nat) (v : Addr) (depth : N),
    (N.to_nat (maxDepth options - depth) < fuel)%nat ->
    ends A T (fun p => Inv (heap p)) (fun p => Inv (heap p))
      (print ansi state options fuel v depth).
Proof.
  intros Hev HT HA Hmax fuel v depth Hfuel.
  apply print_ends_by_depth; auto.
  - intros p p' Hh _ H. now rewrite Hh.
  - intros p i H. cbn [heap set_heap]. now apply Hev.
  - intros p a H. cbn [heap set_heap]. unfold forced.
    destruct (force options); [now apply Hev | exact H].
  - intros p a H. cbn [heap set_heap]. unfold shortcut, derivationTest.
    destruct (force options && derivationPaths options); [now apply Hev | exact H].
  - destruct HA as [-> | HA]; [now left | right]. intros p H. now apply HA.
  - intros a p p1 b H E. destruct (seen_insert_heap _ _ _ _ E) as (Hh & _).
    now rewrite Hh.
Qed.


(** C1.  With [force] and [derivationPaths] set, [printAttrs] calls
    [isDerivation] outside of every [try] block.  For the set
    [{ n = 1; type = <failing thunk>; }], [isDerivation] forces [type], the
    exception leaves [printAttrs], [print] and [printValue], and nothing
    has been written for the set; inside the list
    [[ 1 { type = <failing thunk>; } 2 ]] the call ends after [[ 1], and
    the item behind the set is never printed.  With [derivationPaths] off
    the same set is printed whole, with the message of the error at the
    place of [type].  For every evaluator: when the test throws for an
    attribute set that is not yet in [seen], the exception is the outcome of
    [print]. *)
Theorem derivation_test_error_escapes :
  (exists p,
     printValue nix_ansi toy_state forcing_options 2 heap_type_throws [] 0
     = Some (Thrown {| msg := lit "boom" |} p)
     /\ output p = [])
  /\ (exists p,
        printValue nix_ansi toy_state forcing_options 3 heap_type_throws_inside [] 0
        = Some (Thrown {| msg := lit "boom" |} p)
        /\ output p = lit "[ 1 ")
  /\ printed (printValue nix_ansi toy_state force_only_options 2 heap_type_throws [] 0)
     = Some (lit "{ n = 1; type = «boom»; }")
  /\ (forall ansi state options fuel v depth p h' attrs h'' e,
        forced state options (heap p) v = (h', None) ->
        h' v = VAttrs attrs ->
        fst (seen_insert v (set_heap h' p)) = false ->
        shortcut state options h' v = (h'', inl e) ->
        print ansi state options (S fuel) v depth p
        = Some (Thrown e (set_heap h'' (snd (seen_insert v (set_heap h' p)))))).
Proof.
  split; [| split; [| split]].
  - eexists. split; [now vm_compute | reflexivity].
  - eexists. split; [now vm_compute | reflexivity].
  - now vm_compute.
  - intros ansi state options fuel v depth p h' attrs h'' e Hf Hv Hins Hs.
    rewrite print_unfold, Hf. unfold dispatch. cbn [heap set_heap].
    rewrite Hv. unfold printAttrs.
    destruct (seen_insert v (set_heap h' p)) as [b p1] eqn:E.
    cbn [fst snd] in *. subst b.
    destruct (seen_insert_heap _ _ _ _ E) as (Hh & _).
    cbn [heap set_heap] in Hh. unfold shortcut in Hs. now rewrite Hh, Hs.
Qed.



(** C2.  [{ a = { x = 1; }; b = 2; c = 3; }] with [maxAttrs] 2: the outer
    set stops after [a], with [b] and [c] left, and its notice reports 1
    attribute, the size 3 minus the global counter 2.  One level deeper the
    subtraction wraps.  [[ [ 1 2 ] 3 4 ]] with [maxListItems] 3: the outer
    list has 2 items left and its notice reports 0. *)
Theorem elision_counts_global_counter :
  printed (printValue nix_ansi toy_state (with_maxAttrs 2 default_options) 3
             heap_nested_attrs [] 0)
  = Some (lit "{ a = { x = 1; }; «1 attribute elided»}")
  /\ printed (printValue nix_ansi toy_state (with_maxAttrs 1 default_options) 4
                heap_deep_attrs [] 0)
     = Some (lit "{ a = { x = { p = 1; }; }; «4294967295 attributes elided»}")
  /\ printed (printValue nix_ansi toy_state
                {| force := false; derivationPaths := false;
                   maxDepth := SIZE_MAX; maxAttrs := SIZE_MAX;
                   maxListItems := 3; maxStringLength := SIZE_MAX;
                   ansiColors := false; trackRepeated := true |} 3
                heap_nested_list [] 0)
     = Some (lit "[ [ 1 2 ] «0 items elided»]").
Proof. repeat split; now vm_compute. Qed.




(** C6 (as amended).  A value whose type tag is none of the enumerators is
    printed as the marker «unknown» (in red when colours are on) and [print]
    returns, so that printing goes on; the process is aborted only for a
    function or a thunk of none of the known kinds: [printFunction] and
    [printThunk] abort for these and for no other kind, and a call of
    [printValue] on a heap that holds no such function or thunk, and comes
    to hold none through the evaluator, ends without an abort. *)
Theorem invalid_tag_printed_as_unknown (ansi : AnsiCodes) (state : EvalState)
    (options : PrintOptions) (fuel : nat) (v : Addr) (depth : N) (p : Printer)
    (h' : Heap) (tag : N) :
  forced state options (heap p) v = (h', None) ->
  type (h' v) = nOutside tag ->
  print ansi state options (S fuel) v depth p
  = Some (Returned (printUnknown ansi options (set_heap h' p)))
  /\ output (printUnknown ansi options (set_heap h' p))
     = output p ++ when (ansiColors options) (ANSI_RED ansi)
       ++ lit "«unknown»" ++ when (ansiColors options) (ANSI_NORMAL ansi)
  /\ (forall q, exists q', printFunction ansi options OtherFunction q = Some (Aborted q'))
  /\ (forall q, printThunk ansi options OtherThunk q = Some (Aborted q))
  /\ (forall f q q', printFunction ansi options f q = Some (Aborted q') ->
        f = OtherFunction)
  /\ (forall t q q', printThunk ansi options t q = Some (Aborted q') ->
        t = OtherThunk)
  /\ (forall (Inv : Heap -> Prop) fuel' h out root,
        evaluator_preserves state Inv ->
        (forall h0, Inv h0 -> known_kinds h0) ->
        Inv h ->
        maxDepth options <= SIZE_MAX ->
        (N.to_nat (maxDepth options) < fuel')%nat ->
        exists r, printValue ansi state options fuel' h out root = Some r
                  /\ forall q, r <> Aborted q).
Proof.
  intros Hf Hv. split; [| split; [| split; [| split; [| split; [| split]]]]].
  - rewrite print_unfold, Hf. unfold dispatch. cbn [heap set_heap].
    now destruct (h' v).
  - unfold printUnknown. now rewrite coloured_output.
  - intros q. eexists. reflexivity.
  - reflexivity.
  - intros f q q' H.
    assert (E : f = OtherFunction \/ f <> OtherFunction)
      by (destruct f; auto; right; discriminate).
    destruct E as [E | E]; [exact E | exfalso].
    destruct (printFunction_ends ansi options false true anything f) with (p := q)
      as (r & Hr & Hout); auto with printer.
    + exact Logic.I.
    + rewrite H in Hr. injection Hr as <-. destruct Hout as [Habs _].
      discriminate Habs.
  - intros t q q' H.
    assert (E : t = OtherThunk \/ t <> OtherThunk)
      by (destruct t; auto; right; discriminate).
    destruct E as [E | E]; [exact E | exfalso].
    destruct (printThunk_ends ansi options false true anything t) with (p := q)
      as (r & Hr & Hout); auto with printer.
    + exact Logic.I.
    + rewrite H in Hr. injection Hr as <-. destruct Hout as [Habs _].
      discriminate Habs.
  - intros Inv fuel' h out root Hev Hk Hh Hmax Hfuel.
    rewrite printValue_initial.
    destruct (print_ends_with_invariant ansi state options false true Inv Hev
                (or_introl eq_refl) (or_intror Hk) Hmax fuel' root 0)
      with (p := initial options h out) as (r & Hr & Hout).
    + rewrite N.sub_0_r. exact Hfuel.
    + exact Hh.
    + exists r. split; [exact Hr |]. intros q ->. destruct Hout as [Habs _].
      discriminate Habs.
Qed.

Lemma invalid_tag_printed_as_unknown_witness :
  print nix_ansi toy_state small_plain_options 1 1 1
    (initial small_plain_options heap_invalid [])
  = Some (Returned (printUnknown nix_ansi small_plain_options
                      (initial small_plain_options heap_invalid [])))
  /\ exists r, printValue nix_ansi toy_state small_plain_options 6 heap_invalid [] 0
               = Some r
               /\ forall q, r <> Aborted q.
Proof.
  pose proof (invalid_tag_printed_as_unknown nix_ansi toy_state small_plain_options
                0 1 1 (initial small_plain_options heap_invalid []) heap_invalid 99
                eq_refl eq_refl) as H.
  split; [exact (proj1 H) |].
  apply (proj2 (proj2 (proj2 (proj2 (proj2 (proj2 H))))) known_kinds 6%nat
           heap_invalid [] 0 toy_evaluator_known (fun _ Hk => Hk)
           heap_invalid_known).
  - now vm_compute.
  - simpl. lia.
Defined.

(** C6, counterexample.  A list that holds a value with the type tag 99 is
    printed to its end, with the marker at the place of that value. *)
Lemma invalid_tag_is_output :
  heap_invalid 1 = VInvalid 99
  /\ exists p, printValue nix_ansi toy_state default_options 2 heap_invalid [] 0
               = Some (Returned p)
               /\ output p = lit "[ «unknown» 7 ]".
Proof. split; [reflexivity |]. eexists. split; [now vm_compute | now vm_compute]. Qed.

(** C8.  With [trackRepeated] set, printing ends on every heap, cyclic or
    not, whose containers (those the evaluator makes included) have their
    addresses in a finite set, within a number of nested calls that depends
    on the size of that set and not on [maxDepth]; a
    container whose address is already in [seen] is printed as the marker
    «repeated», with no recursive call and with the counters left as they
    are; an empty list is never checked against [seen]: it is printed as a
    pair of brackets even when its address is in the set. *)
Theorem repeated_containers (ansi : AnsiCodes) (state : EvalState)
    (options : PrintOptions) (Inv : Heap -> Prop) (U : gset N) (fuel : nat)
    (h : Heap) (out : text) (root : Addr) :
  trackRepeated options = true ->
  evaluator_preserves state Inv ->
  (forall h', Inv h' -> containers_in U h') ->
  Inv h ->
  (size U < fuel)%nat ->
  (exists r, printValue ansi state options fuel h out root = Some r)
  /\ (forall f v d q s h',
        seen q = Some s -> v ∈ s ->
        forced state options (heap q) v = (h', None) ->
        is_container (h' v) = true ->
        print ansi state options (S f) v d q
        = Some (Returned (printRepeated ansi options (set_heap h' q)))
        /\ output (printRepeated ansi options (set_heap h' q))
           = output q ++ when (ansiColors options) (ANSI_MAGENTA ansi)
             ++ lit "«repeated»" ++ when (ansiColors options) (ANSI_NORMAL ansi))
  /\ (forall f v d q s h',
        seen q = Some s -> v ∈ s ->
        forced state options (heap q) v = (h', None) ->
        h' v = VList [] ->
        exists q',
          print ansi state options (S f) v d q = Some (Returned q')
          /\ output q'
             = output q ++ (if d <? maxDepth options then lit "[ ]" else lit "[ ... ]")
          /\ seen q' = seen q)
  /\ printed (printValue nix_ansi toy_state default_options 3 heap_cyclic [] 0)
     = Some (lit "{ l = [ «repeated» [ ] [ ] ]; n = 1; self = «repeated»; }")
  /\ printed (printValue nix_ansi toy_state forcing_options 3 heap_lazy_cycle [] 0)
     = Some (lit "{ xs = [ «repeated» ]; }").
Proof.
  intros Htrack Hev HU Hc Hfuel. split; [| split; [| split; [| split]]].
  - rewrite printValue_initial.
    destruct (print_ends_by_seen ansi state options true true Inv U Hev HU
                (or_introl eq_refl) (or_introl eq_refl) fuel ∅ root 0)
      with (p := initial options h out) as (r & Hr & _).
    + replace (U ∖ ∅) with U by set_solver. exact Hfuel.
    + split; [| exact Hc]. exists ∅. unfold initial. cbn [seen].
      rewrite Htrack. now split.
    + now exists r.
  - intros f v d q s h' Hs Hin Hf Hv. split.
    + now apply (print_repeated ansi state options f v d q s h').
    + unfold printRepeated. now rewrite coloured_output.
  - intros f v d q s h' _ _ Hf Hv.
    now apply (print_empty_list ansi state options f v d q h').
  - now vm_compute.
  - now vm_compute.
Qed.

Lemma repeated_containers_witness :
  exists r, printValue nix_ansi toy_state forcing_options 3 heap_lazy_cycle [] 0
            = Some r.
Proof.
  refine (proj1 (repeated_containers nix_ansi toy_state forcing_options
                   (lazily_within {[ 0; 1 ]}) {[ 0; 1 ]} 3 heap_lazy_cycle [] 0
                   eq_refl (toy_evaluator_preserves _)
                   (lazily_within_containers _) heap_lazy_cycle_within _)).
  vm_compute. lia.
Defined.

(** C9 (as amended).  With [trackRepeated] set, the address of a container
    is added to [seen] when the container is met for the first time, before
    the depth is looked at: a container first met at a depth of [maxDepth]
    or more (for an attribute set: the test of the derivation answering
    false, so that the set is not printed as a derivation and no exception
    of the test leaves [printAttrs]) is printed as its placeholder
    and is in [seen] from then on, and when it is met again, at whatever
    depth, it is printed as «repeated». *)
Theorem seen_marked_before_depth_check (ansi : AnsiCodes) (state : EvalState)
    (options : PrintOptions) (fuel : nat) (v : Addr) (depth : N) (p : Printer)
    (s : gset N) (h' : Heap) :
  seen p = Some s ->
  v ∉ s ->
  forced state options (heap p) v = (h', None) ->
  is_container (h' v) = true ->
  (forall attrs, h' v = VAttrs attrs ->
     snd (shortcut state options h' v) = inr false) ->
  maxDepth options <= depth ->
  exists p1,
    print ansi state options (S fuel) v depth p = Some (Returned p1)
    /\ output p1 = output p ++ placeholder (h' v)
    /\ seen p1 = Some ({[ v ]} ∪ s)
    /\ forall fuel' depth' h'',
         forced state options (heap p1) v = (h'', None) ->
         is_container (h'' v) = true ->
         print ansi state options (S fuel') v depth' p1
         = Some (Returned (printRepeated ansi options (set_heap h'' p1))).
Proof.
  intros Hs Hnin Hf Hc Hshort Hdepth.
  assert (Hins : seen_insert v (set_heap h' p)
                 = (false, set_seen (Some ({[ v ]} ∪ s)) (set_heap h' p))).
  { rewrite (seen_insert_tracked v _ s) by exact Hs.
    now rewrite bool_decide_eq_false_2 by exact Hnin. }
  assert (Hlt : (depth <? maxDepth options) = false) by (apply N.ltb_ge; exact Hdepth).
  assert (Hlater : forall p1, seen p1 = Some ({[ v ]} ∪ s) ->
            forall fuel' depth' h'',
              forced state options (heap p1) v = (h'', None) ->
              is_container (h'' v) = true ->
              print ansi state options (S fuel') v depth' p1
              = Some (Returned (printRepeated ansi options (set_heap h'' p1)))).
  { intros p1 Hp1 fuel' depth' h'' Hf' Hc'.
    apply (print_repeated ansi state options fuel' v depth' p1 ({[ v ]} ∪ s) h'');
      auto. set_solver. }
  rewrite print_unfold, Hf. unfold dispatch. cbn [heap set_heap].
  destruct (h' v) as [| | | | | | attrs | [| elem rest] | | | |] eqn:Hv;
    try discriminate Hc.
  - unfold printAttrs. rewrite Hins. cbn [heap set_seen set_heap].
    specialize (Hshort attrs eq_refl).
    unfold shortcut in Hshort.
    destruct (derivationTest state options h' v) as [h2 [e | [|]]];
      try discriminate Hshort.
    rewrite Hlt.
    eexists. split; [reflexivity |]. split; [reflexivity |].
    split; [reflexivity |]. now apply Hlater.
  - unfold printList. rewrite Hins, Hlt.
    eexists. split; [reflexivity |]. split.
    { cbn. now rewrite <- !app_assoc. }
    split; [reflexivity |]. now apply Hlater.
Qed.

Lemma seen_marked_before_depth_check_witness :
  exists p1,
    print nix_ansi toy_state limited_options 1 2 2 shared_start = Some (Returned p1)
    /\ output p1 = lit "[ ... ]"
    /\ seen p1 = Some ({[ 2 ]} ∪ ∅)
    /\ forall fuel' depth' h'',
         forced toy_state limited_options (heap p1) 2 = (h'', None) ->
         is_container (h'' 2) = true ->
         print nix_ansi toy_state limited_options (S fuel') 2 depth' p1
         = Some (Returned (printRepeated nix_ansi limited_options (set_heap h'' p1))).
Proof.
  refine (seen_marked_before_depth_check nix_ansi toy_state limited_options 0 2 2
            shared_start ∅ heap_shared eq_refl _ eq_refl eq_refl _ _).
  - set_solver.
  - reflexivity.
  - now vm_compute.
Defined.

(** C9, counterexample.  With [maxDepth] 2, the list [x] of
    [[ [ x ] x ]] is first met at depth 2, where it is printed as
    [[ ... ]], and then at depth 1, where it is printed as «repeated»: its
    contents are not enumerated at the shallower depth. *)
Lemma shallower_encounter_is_repeated :
  printed (printValue nix_ansi toy_state limited_options 4 heap_shared [] 0)
  = Some (lit "[ [ [ ... ] ] «repeated» ]")
  /\ printed (printValue nix_ansi toy_state limited_options 4 heap_shared [] 0)
     <> Some (lit "[ [ [ ... ] ] [ 1 ] ]").
Proof. split; now vm_compute. Qed.

(** * Further properties *)

(** ** [printIdentifier] *)

Lemma class_chars_agree (c : ascii) : isIdentifierChar c = isVarChar c.
Proof.
  unfold isIdentifierChar, isVarChar.
  destruct (is_lower c), (is_upper c), (is_digit c), (Ascii.eqb c "_"),
    (Ascii.eqb c "'"), (Ascii.eqb c "-"); reflexivity.
Qed.

Lemma class_agree (l : text) : forallb isIdentifierChar l = forallb isVarChar l.
Proof.
  induction l as [| c l IH]; [reflexivity |].
  cbn [forallb]. now rewrite class_chars_agree, IH.
Qed.

Lemma start_of_class (c : ascii) :
  isVarChar c = true ->
  isIdentifierStart c = negb (is_digit c || Ascii.eqb c "-" || Ascii.eqb c "'").
Proof.
  unfold isVarChar, isIdentifierStart, is_lower, is_upper, is_digit.
  destruct (Ascii.eqb_spec c "_") as [-> | _]; [reflexivity |].
  destruct (Ascii.eqb_spec c "-") as [-> | _]; [reflexivity |].
  destruct (Ascii.eqb_spec c "'") as [-> | _]; [reflexivity |].
  destruct (char_in "a" "z" c) eqn:L, (char_in "A" "Z" c) eqn:U,
    (char_in "0" "9" c) eqn:D; cbn; intros; try reflexivity; try discriminate;
    exfalso; rewrite ?char_in_spec in *;
    change (N_of_ascii "a") with 97 in *; change (N_of_ascii "z") with 122 in *;
    change (N_of_ascii "A") with 65 in *; change (N_of_ascii "Z") with 90 in *;
    change (N_of_ascii "0") with 48 in *; change (N_of_ascii "9") with 57 in *;
    lia.
Qed.

Lemma keyword_literal (ansi : AnsiCodes) (str : text) (s : string_view) :
  In (sv_chars s) reservedKeywords ->
  printLiteralString_unlimited ansi str s = str ++ [dquote] ++ sv_chars s ++ [dquote].
Proof.
  intros Hin. unfold printLiteralString_unlimited.
  destruct s as [chars past]. cbn [sv_chars] in *.
  unfold reservedKeywords in Hin. cbn [map In] in Hin.
  assert (Hbody : escaped_prefix {| sv_chars := chars; sv_past := past |}
                    (length chars) = chars
                  /\ N.of_nat (length chars) <= SIZE_MAX).
  { repeat (destruct Hin as [<- | Hin]; [split; now vm_compute |]). destruct Hin. }
  destruct Hbody as [Hbody Hlen].
  rewrite printLiteralString_whole; [| reflexivity | exact Hlen].
  cbn [sv_chars when]. now rewrite Hbody, app_nil_r.
Qed.

(** X1.  [printIdentifier] and [printAttributeName] write the same text for
    every name: the two tests on the first character admit the same names
    once all the characters are in the class, and the quotes that
    [printIdentifier] puts around the empty name and around a keyword are
    what [printLiteralString] writes for them. *)
Theorem printIdentifier_printAttributeName (ansi : AnsiCodes) (str : text)
    (s : string_view) :
  printIdentifier ansi str s = printAttributeName ansi str s.
Proof.
  unfold printIdentifier, printAttributeName.
  destruct (sv_chars s) as [| c rest] eqn:Hs.
  { unfold isVarName, printLiteralString_unlimited, printLiteralString,
      printLiteralString_run. rewrite Hs. cbn. now rewrite <- app_assoc. }
  cbn [isVarName].
  destruct (isReservedKeyword (c :: rest)) eqn:Hk.
  { apply isReservedKeyword_spec in Hk. rewrite <- Hs in *.
    symmetry. now apply keyword_literal. }
  rewrite class_agree.
  destruct (forallb isVarChar (c :: rest)) eqn:Hall.
  - assert (Hc : isVarChar c = true).
    { cbn [forallb] in Hall. now apply andb_prop in Hall. }
    rewrite (start_of_class c Hc).
    now destruct (is_digit c || Ascii.eqb c "-" || Ascii.eqb c "'").
  - destruct (negb (isIdentifierStart c));
      now destruct (is_digit c || Ascii.eqb c "-" || Ascii.eqb c "'").
Qed.

(** ** String literals, further *)

Lemma map_deref_all (s : string_view) :
  map (deref s) (seq 0 (length (sv_chars s))) = sv_chars s.
Proof.
  unfold deref. generalize (sv_past s). generalize (sv_chars s).
  intros l d. induction l as [| a l IH]; [reflexivity |].
  cbn [length seq map nth]. f_equal.
  rewrite <- seq_shift, map_map. exact IH.
Qed.

Lemma escape_plain (c next : ascii) : needs_escape c = false -> escape c next = [c].
Proof.
  unfold needs_escape, escape. intros H.
  repeat (apply Bool.orb_false_elim in H; destruct H as [H ?]).
  repeat match goal with E : Ascii.eqb _ _ = false |- _ => rewrite E; clear E end.
  reflexivity.
Qed.

Lemma escape_ignores_next (c n1 n2 : ascii) :
  c <> "$"%char -> escape c n1 = escape c n2.
Proof.
  intros Hc. unfold escape. apply Ascii.eqb_neq in Hc. now rewrite Hc.
Qed.

Lemma unescape_escape (c next : ascii) (t : text) :
  unescape (escape c next ++ t) = c :: unescape t.
Proof.
  unfold escape.
  destruct (Ascii.eqb_spec c dquote) as [-> | _]; [reflexivity |].
  destruct (Ascii.eqb_spec c backslash) as [-> | Hb]; [reflexivity |].
  destruct (Ascii.eqb_spec c newline) as [-> | _]; [reflexivity |].
  destruct (Ascii.eqb_spec c carriage_return) as [-> | _]; [reflexivity |].
  destruct (Ascii.eqb_spec c tab) as [-> | _]; [reflexivity |].
  apply Ascii.eqb_neq in Hb.
  destruct (Ascii.eqb_spec c "$") as [-> | _].
  - now destruct (Ascii.eqb next "{").
  - cbn [andb app unescape]. now rewrite Hb.
Qed.

Lemma unescape_pieces (s : string_view) (n : nat) :
  forall i t,
    unescape (pieces s i n ++ t) = map (deref s) (seq i n) ++ unescape t.
Proof.
  induction n as [| n IH]; intros i t; [reflexivity |].
  rewrite pieces_S, <- app_assoc, unescape_escape, IH. reflexivity.
Qed.

Lemma pieces_plain (s : string_view) (n : nat) :
  forall i,
    (forall j, (i <= j < i + n)%nat -> needs_escape (deref s j) = false) ->
    pieces s i n = map (deref s) (seq i n).
Proof.
  induction n as [| n IH]; intros i H; [reflexivity |].
  rewrite pieces_S, escape_plain by (apply H; lia).
  cbn [seq map app]. f_equal. apply IH. intros j Hj. apply H. lia.
Qed.

Lemma pieces_ext (s1 s2 : string_view) (n : nat) :
  forall i,
    (forall j, (i <= j < i + n)%nat ->
       escape (deref s1 j) (deref s1 (S j)) = escape (deref s2 j) (deref s2 (S j))) ->
    pieces s1 i n = pieces s2 i n.
Proof.
  induction n as [| n IH]; intros i H; [reflexivity |].
  rewrite !pieces_S, H by lia. f_equal. apply IH. intros j Hj. apply H. lia.
Qed.

(** X2.  A string within the limit that holds none of the characters double
    quote, backslash, newline, carriage return, tab and dollar sign is
    printed as it is between two double quotes. *)
Theorem plain_string_quoted (ansi : AnsiCodes) (str : text) (s : string_view)
    (maxLength : N) (ansiColors : bool) :
  maxLength <= SIZE_MAX ->
  sv_length s <= maxLength ->
  Forall (fun c => needs_escape c = false) (sv_chars s) ->
  printLiteralString ansi str s maxLength ansiColors
  = str ++ when ansiColors (ANSI_MAGENTA ansi)
    ++ [dquote] ++ sv_chars s ++ [dquote]
    ++ when ansiColors (ANSI_NORMAL ansi).
Proof.
  intros HM HL Hplain. rewrite printLiteralString_whole by assumption.
  unfold escaped_prefix. rewrite pieces_plain, map_deref_all; [reflexivity |].
  intros j Hj. rewrite Forall_forall in Hplain. apply Hplain.
  unfold deref. apply nth_In. lia.
Qed.

Lemma plain_string_quoted_witness :
  printLiteralString nix_ansi [] (view_of (lit "x86_64-linux")) 20 false
  = [dquote] ++ lit "x86_64-linux" ++ [dquote].
Proof.
  refine (eq_trans
            (plain_string_quoted nix_ansi [] (view_of (lit "x86_64-linux")) 20 false
               _ _ _) _).
  - now vm_compute.
  - now vm_compute.
  - repeat constructor.
  - reflexivity.
Defined.

(** X3.  Printing a string within the limit loses nothing: reading the
    text between the quotes back, with a backslash and the character after
    it taken as one character, gives the characters of the string; so two
    strings within the limit that are printed alike are the same string. *)
Theorem string_literal_round_trip (ansi : AnsiCodes) (str : text)
    (s : string_view) (maxLength : N) (ansiColors : bool) :
  maxLength <= SIZE_MAX ->
  sv_length s <= maxLength ->
  printLiteralString ansi str s maxLength ansiColors
  = str ++ when ansiColors (ANSI_MAGENTA ansi)
    ++ [dquote] ++ escaped_prefix s (length (sv_chars s)) ++ [dquote]
    ++ when ansiColors (ANSI_NORMAL ansi)
  /\ unescape (escaped_prefix s (length (sv_chars s))) = sv_chars s
  /\ forall s',
       sv_length s' <= maxLength ->
       printLiteralString ansi str s' maxLength ansiColors
       = printLiteralString ansi str s maxLength ansiColors ->
       sv_chars s' = sv_chars s.
Proof.
  intros HM HL.
  assert (Hback : forall x, unescape (escaped_prefix x (length (sv_chars x)))
                            = sv_chars x).
  { intros x. unfold escaped_prefix.
    rewrite <- (app_nil_r (pieces x 0 _)), unescape_pieces, map_deref_all.
    apply app_nil_r. }
  split; [now apply printLiteralString_whole |]. split; [apply Hback |].
  intros s' HL' Heq. rewrite !printLiteralString_whole in Heq by assumption.
  apply app_inv_head in Heq. apply app_inv_head in Heq.
  apply app_inv_head in Heq.
  rewrite !(app_assoc _ [dquote]) in Heq. apply app_inv_tail in Heq.
  apply app_inv_tail in Heq.
  rewrite <- (Hback s'), <- (Hback s). now f_equal.
Qed.

Lemma string_literal_round_trip_witness :
  unescape (escaped_prefix (view_of (lit "a\b${c}")) 7) = lit "a\b${c}".
Proof.
  exact (proj1 (proj2
    (string_literal_round_trip nix_ansi [] (view_of (lit "a\b${c}")) 10 true
       ltac:(now vm_compute) ltac:(now vm_compute)))).
Defined.

Lemma last_nth (l : text) (d : ascii) :
  l <> [] -> last l d = nth (length l - 1) l d.
Proof.
  induction l as [| a l IH]; [intros H; now elim H |]. intros _.
  destruct l as [| b l]; [reflexivity |].
  change (last (a :: b :: l) d) with (last (b :: l) d).
  rewrite IH by discriminate. simpl. now rewrite ?Nat.sub_0_r.
Qed.

Lemma printLiteralChar_reads (s : string_view) (i : nat) (st : LiteralState) :
  ls_reads (printLiteralChar s i st)
  = ls_reads st ++ i :: (if Ascii.eqb (deref s i) "$" then [S i] else []).
Proof.
  unfold printLiteralChar.
  destruct (Ascii.eqb_spec (deref s i) dquote) as [-> | _]; [reflexivity |].
  destruct (Ascii.eqb_spec (deref s i) backslash) as [-> | _]; [reflexivity |].
  cbn [orb].
  destruct (Ascii.eqb_spec (deref s i) newline) as [-> | _]; [reflexivity |].
  destruct (Ascii.eqb_spec (deref s i) carriage_return) as [-> | _]; [reflexivity |].
  destruct (Ascii.eqb_spec (deref s i) tab) as [-> | _]; [reflexivity |].
  destruct (Ascii.eqb (deref s i) "$"); [| reflexivity].
  destruct (Ascii.eqb (deref s (S i)) "{"); cbn [ls_reads ls_emit ls_read];
    now rewrite <- app_assoc.
Qed.

Section Reads.

Variable ansi : AnsiCodes.

Lemma loop_reads (s : string_view) (M : N) (c : bool) (n : nat) :
  M <= SIZE_MAX ->
  forall i st,
    ls_reads (printLiteralString_loop ansi s M c n i (N.of_nat i) st)
    = ls_reads st ++ read_positions s i (Nat.min n (N.to_nat M - i)).
Proof.
  intros HM. induction n as [| n IH]; intros i st.
  - cbn. now rewrite app_nil_r.
  - cbn [printLiteralString_loop].
    destruct (N.leb_spec M (N.of_nat i)) as [Hge | Hlt].
    + replace (N.to_nat M - i)%nat with 0%nat by lia.
      rewrite Nat.min_0_r. cbn. now rewrite app_nil_r.
    + rewrite (size_inc_below _ M) by assumption.
      replace (N.of_nat i + 1) with (N.of_nat (S i)) by lia.
      rewrite IH, printLiteralChar_reads.
      replace (N.to_nat M - i)%nat with (S (N.to_nat M - S i)) by lia.
      rewrite <- Nat.succ_min_distr. unfold read_positions.
      cbn [seq map concat]. now rewrite <- !app_assoc.
Qed.

Lemma reads_closed_form (s : string_view) (M : N) (c : bool) :
  M <= SIZE_MAX ->
  printLiteralString_reads ansi s M c
  = read_positions s 0 (Nat.min (length (sv_chars s)) (N.to_nat M)).
Proof.
  intros HM. unfold printLiteralString_reads, printLiteralString_run.
  rewrite (loop_reads s M c _ HM 0%nat). cbn [ls_reads app].
  now rewrite Nat.sub_0_r.
Qed.

End Reads.

(** X4.  [printLiteralString] dereferences only positions inside the view,
    with one exception: the position right behind the view is read exactly
    when the last character is a dollar sign and lies within the limit (if
    that position is read, the view ends with such a dollar sign; and if
    the view ends with such a dollar sign, that position is read).  A
    string without a dollar sign is read inside its bounds only. *)
Theorem reads_within_view (ansi : AnsiCodes) (s : string_view) (maxLength : N)
    (ansiColors : bool) :
  maxLength <= SIZE_MAX ->
  (forall i, In i (printLiteralString_reads ansi s maxLength ansiColors) ->
     (i < length (sv_chars s))%nat
     \/ (i = length (sv_chars s)
         /\ sv_chars s <> []
         /\ last (sv_chars s) NUL = "$"%char
         /\ sv_length s <= maxLength))
  /\ (~ In "$"%char (sv_chars s) ->
      forall i, In i (printLiteralString_reads ansi s maxLength ansiColors) ->
        (i < length (sv_chars s))%nat)
  /\ (sv_chars s <> [] ->
      last (sv_chars s) NUL = "$"%char ->
      sv_length s <= maxLength ->
      In (length (sv_chars s))
        (printLiteralString_reads ansi s maxLength ansiColors)).
Proof.
  intros HM.
  assert (Hmain : forall i,
            In i (printLiteralString_reads ansi s maxLength ansiColors) ->
            (i < length (sv_chars s))%nat
            \/ (i = length (sv_chars s)
                /\ sv_chars s <> []
                /\ last (sv_chars s) NUL = "$"%char
                /\ sv_length s <= maxLength)).
  { intros i Hi. rewrite reads_closed_form in Hi by exact HM.
    unfold read_positions in Hi. apply in_concat in Hi.
    destruct Hi as (r & Hr & Hir). apply in_map_iff in Hr.
    destruct Hr as (j & <- & Hj). apply in_seq in Hj.
    destruct Hir as [<- | Hir]; [left; lia |].
    destruct (Ascii.eqb_spec (deref s j) "$") as [Hd | _]; [| destruct Hir].
    destruct Hir as [<- | []].
    destruct (Nat.eq_dec (S j) (length (sv_chars s))) as [Heq | Hne]; [| left; lia].
    right. assert (Hnil : sv_chars s <> []).
    { intros E. rewrite E in Heq. discriminate. }
    split; [exact Heq |]. split; [exact Hnil |]. split.
    - rewrite last_nth by exact Hnil. rewrite <- Heq. cbn [Nat.sub].
      rewrite Nat.sub_0_r. rewrite <- Hd. unfold deref.
      apply nth_indep. lia.
    - unfold sv_length. lia. }
  split; [exact Hmain | split].
  - intros Hno i Hi. destruct (Hmain i Hi) as [Hlt | (_ & Hnil & Hlast & _)];
      [exact Hlt |].
    elim Hno. rewrite <- Hlast.
    destruct (exists_last Hnil) as (l' & a & ->). rewrite last_last.
    apply in_or_app. right. now left.
  - intros Hnil Hlast Hlen. rewrite reads_closed_form by exact HM.
    unfold sv_length in Hlen.
    rewrite Nat.min_l by lia.
    unfold read_positions. apply in_concat.
    assert (Hpos : (0 < length (sv_chars s))%nat).
    { destruct (sv_chars s); [now elim Hnil | simpl; lia]. }
    exists (pred (length (sv_chars s))
            :: (if Ascii.eqb (deref s (pred (length (sv_chars s)))) "$"
                then [S (pred (length (sv_chars s)))] else [])).
    split.
    + apply in_map_iff. exists (pred (length (sv_chars s))).
      split; [reflexivity |]. apply in_seq. lia.
    + right.
      assert (Hd : deref s (pred (length (sv_chars s))) = "$"%char).
      { rewrite <- Hlast. rewrite last_nth by exact Hnil.
        rewrite <- Nat.sub_1_r. unfold deref. apply nth_indep. lia. }
      rewrite Hd. cbn. left. lia.
Qed.

Lemma reads_within_view_witness :
  Forall (fun i => (i < 3)%nat)
    (printLiteralString_reads nix_ansi (view_of (lit "abc")) 10 false).
Proof.
  apply Forall_forall.
  refine (proj1 (proj2 (reads_within_view nix_ansi (view_of (lit "abc")) 10 false _))
            _).
  - now vm_compute.
  - intros [H | [H | [H | []]]]; discriminate H.
Defined.

(** X5.  What is printed for a view depends on the characters of the view
    alone, and not on the byte stored behind it, when the string is cut by
    the limit or does not end with a dollar sign. *)
Theorem output_independent_of_storage (ansi : AnsiCodes) (str : text)
    (s1 s2 : string_view) (maxLength : N) (ansiColors : bool) :
  maxLength <= SIZE_MAX ->
  sv_chars s1 = sv_chars s2 ->
  maxLength < sv_length s1 \/ last (sv_chars s1) NUL <> "$"%char ->
  printLiteralString ansi str s1 maxLength ansiColors
  = printLiteralString ansi str s2 maxLength ansiColors.
Proof.
  intros HM Hchars Hcase.
  assert (Hlen : sv_length s2 = sv_length s1).
  { unfold sv_length. now rewrite Hchars. }
  assert (Hin : forall j, (j < length (sv_chars s1))%nat -> deref s1 j = deref s2 j).
  { intros j Hj. unfold deref. rewrite <- Hchars. apply nth_indep. exact Hj. }
  destruct (N.lt_ge_cases maxLength (sv_length s1)) as [Hlt | Hge].
  - rewrite !printLiteralString_cut by (rewrite ?Hlen; assumption).
    rewrite Hlen. do 3 f_equal. f_equal. unfold escaped_prefix.
    apply pieces_ext. intros j Hj. unfold sv_length in Hlt.
    rewrite !Hin by lia. reflexivity.
  - destruct Hcase as [Hlt | Hlast]; [lia |].
    rewrite !printLiteralString_whole by (rewrite ?Hlen; assumption).
    rewrite <- Hchars. do 3 f_equal. f_equal. unfold escaped_prefix.
    apply pieces_ext. intros j Hj.
    destruct (Nat.eq_dec (S j) (length (sv_chars s1))) as [Heq | Hne].
    + rewrite <- (Hin j) by lia. apply escape_ignores_next.
      intros Hd. apply Hlast.
      assert (Hnil : sv_chars s1 <> []).
      { intros E. rewrite E in Heq. discriminate. }
      rewrite last_nth by exact Hnil. rewrite <- Heq. cbn [Nat.sub].
      rewrite Nat.sub_0_r. rewrite <- Hd. unfold deref. apply nth_indep. lia.
    + rewrite !Hin by lia. reflexivity.
Qed.

Lemma output_independent_of_storage_witness :
  printLiteralString nix_ansi [] {| sv_chars := lit "$a"; sv_past := "{"%char |} 9 false
  = printLiteralString nix_ansi [] (view_of (lit "$a")) 9 false.
Proof.
  refine (output_independent_of_storage nix_ansi []
            {| sv_chars := lit "$a"; sv_past := "{"%char |} (view_of (lit "$a"))
            9 false _ eq_refl _).
  - now vm_compute.
  - right. discriminate.
Defined.

(** ** The order of attributes *)

Lemma N_of_ascii_inj (x y : ascii) : N_of_ascii x = N_of_ascii y -> x = y.
Proof.
  intros H. rewrite <- (ascii_N_embedding x), <- (ascii_N_embedding y).
  now rewrite H.
Qed.

Ltac compare_chars :=
  repeat match goal with
         | |- context [N.ltb ?a ?b] => destruct (N.ltb_spec a b)
         | H : context [N.ltb ?a ?b] |- _ => destruct (N.ltb_spec a b)
         end.

Lemma text_lt_irrefl (a : text) : text_lt a a = false.
Proof.
  induction a as [| x a IH]; [reflexivity |].
  cbn [text_lt]. now rewrite N.ltb_irrefl.
Qed.

Lemma text_lt_trans (a : text) :
  forall b c, text_lt a b = true -> text_lt b c = true -> text_lt a c = true.
Proof.
  induction a as [| x a IH]; intros [| y b] [| z c]; cbn [text_lt];
    try discriminate; try reflexivity.
  intros Hab Hbc. compare_chars; try discriminate; try reflexivity; try lia.
  now apply (IH b c).
Qed.

Lemma text_lt_total (a : text) :
  forall b, text_lt a b = false -> text_lt b a = false -> a = b.
Proof.
  induction a as [| x a IH]; intros [| y b]; cbn [text_lt];
    try discriminate; try reflexivity.
  intros Hab Hba. compare_chars; try discriminate; try lia.
  assert (x = y) as -> by (apply N_of_ascii_inj; lia).
  f_equal. now apply IH.
Qed.

Lemma text_lt_asym (a b : text) : text_lt a b = true -> text_lt b a = false.
Proof.
  intros H. destruct (text_lt b a) eqn:E; [| reflexivity].
  rewrite <- (text_lt_irrefl a). symmetry. now apply (text_lt_trans a b a).
Qed.

(** The three outcomes of comparing two texts. *)
Lemma text_lt_cases (a b : text) :
  (text_lt a b = true /\ text_lt b a = false)
  \/ (a = b /\ text_lt a b = false /\ text_lt b a = false)
  \/ (text_lt a b = false /\ text_lt b a = true).
Proof.
  destruct (text_lt a b) eqn:Hab.
  - left. split; [reflexivity | now apply text_lt_asym].
  - destruct (text_lt b a) eqn:Hba.
    + right. right. now split.
    + right. left. split; [now apply text_lt_total | now split].
Qed.

Ltac order_cases a b :=
  destruct (text_lt_cases a b) as [[? ?] | [(? & ? & ?) | [? ?]]].

Ltac use_trans :=
  repeat match goal with
         | H1 : text_lt ?a ?b = true, H2 : text_lt ?b ?c = true |- _ =>
             lazymatch goal with
             | _ : text_lt a c = true |- _ => fail
             | _ => pose proof (text_lt_trans a b c H1 H2)
             end
         end.

(** Decides a goal about comparisons of the texts in the context, once all
    their outcomes are known. *)
Ltac close_order :=
  subst; use_trans;
  try match goal with
      | H : text_lt ?a ?a = true |- _ => rewrite text_lt_irrefl in H; discriminate H
      end;
  rewrite ?text_lt_irrefl;
  repeat match goal with
         | H : text_lt _ _ = _ |- _ => rewrite H
         end;
  cbn; intros; compare_chars;
  try discriminate; try reflexivity; try (now split); try congruence; try lia.

Lemma pair_lt_order : strict_weak_order pair_lt.
Proof.
  unfold strict_weak_order, pair_lt. split; [| split].
  - intros [n v]. cbn [fst snd]. now rewrite text_lt_irrefl, N.ltb_irrefl.
  - intros [n1 v1] [n2 v2] [n3 v3]. cbn [fst snd].
    order_cases n1 n2; order_cases n2 n3; order_cases n1 n3; close_order.
  - intros [n1 v1] [n2 v2] [n3 v3]. cbn [fst snd].
    order_cases n1 n2; order_cases n2 n3; order_cases n1 n3; close_order.
Qed.

Lemma important_first_order : strict_weak_order ImportantFirstAttrNameCmp.
Proof.
  unfold strict_weak_order, ImportantFirstAttrNameCmp. split; [| split].
  - intros [n v]. cbn [fst snd]. rewrite text_lt_irrefl.
    now destruct (isImportantAttrName n).
  - intros [n1 v1] [n2 v2] [n3 v3]. cbn [fst snd].
    order_cases n1 n2; order_cases n2 n3; order_cases n1 n3;
      destruct (isImportantAttrName n1) eqn:E1,
        (isImportantAttrName n2) eqn:E2, (isImportantAttrName n3) eqn:E3;
      close_order.
  - intros [n1 v1] [n2 v2] [n3 v3]. cbn [fst snd].
    order_cases n1 n2; order_cases n2 n3; order_cases n1 n3;
      destruct (isImportantAttrName n1) eqn:E1,
        (isImportantAttrName n2) eqn:E2, (isImportantAttrName n3) eqn:E3;
      close_order.
Qed.

(** X6.  The two comparisons that [printAttrs] hands to [std::sort] are
    strict weak orderings, as [std::sort] requires; and
    [ImportantFirstAttrNameCmp] puts a pair named [type] or [_type] before
    every pair with another name. *)
Theorem comparisons_are_strict_weak :
  strict_weak_order pair_lt
  /\ strict_weak_order ImportantFirstAttrNameCmp
  /\ forall a b,
       isImportantAttrName (fst a) = true ->
       isImportantAttrName (fst b) = false ->
       ImportantFirstAttrNameCmp a b = true
       /\ ImportantFirstAttrNameCmp b a = false.
Proof.
  split; [exact pair_lt_order |]. split; [exact important_first_order |].
  intros a b Ha Hb. unfold ImportantFirstAttrNameCmp. now rewrite Ha, Hb.
Qed.

Lemma comparisons_are_strict_weak_witness :
  ImportantFirstAttrNameCmp (lit "type", 9) (lit "a", 1) = true
  /\ ImportantFirstAttrNameCmp (lit "a", 1) (lit "type", 9) = false.
Proof.
  exact (proj2 (proj2 comparisons_are_strict_weak)
           (lit "type", 9) (lit "a", 1) eq_refl eq_refl).
Defined.

Section Sorting.

Variable lt : AttrPair -> AttrPair -> bool.

Lemma sort_insert_perm (x : AttrPair) (l : list AttrPair) :
  Permutation (sort_insert lt x l) (x :: l).
Proof.
  induction l as [| y l IH]; [reflexivity |].
  cbn [sort_insert]. destruct (lt y x); [| reflexivity].
  rewrite IH. apply perm_swap.
Qed.

Lemma sort_perm (l : list AttrPair) : Permutation (sort lt l) l.
Proof.
  induction l as [| x l IH]; [reflexivity |].
  cbn [sort fold_right]. fold (sort lt l). rewrite sort_insert_perm.
  now apply perm_skip.
Qed.

Hypothesis Horder : strict_weak_order lt.

Lemma order_asym (a b : AttrPair) : lt a b = true -> lt b a = false.
Proof.
  destruct Horder as (Hirr & Htrans & _). intros H.
  destruct (lt b a) eqn:E; [| reflexivity].
  rewrite <- (Hirr a). symmetry. now apply (Htrans a b a).
Qed.

Lemma not_after_trans (a b c : AttrPair) :
  not_after lt a b -> not_after lt b c -> not_after lt a c.
Proof.
  destruct Horder as (Hirr & Htrans & Heq). unfold not_after. intros Hba Hcb.
  destruct (lt c a) eqn:Hca; [| reflexivity].
  destruct (lt a b) eqn:Hab.
  { rewrite <- Hcb. symmetry. now apply (Htrans c a b). }
  destruct (lt b c) eqn:Hbc.
  { rewrite <- Hba. symmetry. now apply (Htrans b c a). }
  destruct (Heq a b c Hab Hba Hbc Hcb) as [_ H]. congruence.
Qed.

Lemma sort_insert_sorted (x : AttrPair) (l : list AttrPair) :
  Sorted.StronglySorted (not_after lt) l ->
  Sorted.StronglySorted (not_after lt) (sort_insert lt x l).
Proof.
  induction l as [| y l IH]; intros Hs.
  - repeat constructor.
  - cbn [sort_insert]. inversion Hs as [| ? ? Hl Hy]; subst.
    destruct (lt y x) eqn:Hyx.
    + constructor; [now apply IH |].
      apply (Permutation_Forall (Permutation_sym (sort_insert_perm x l))).
      constructor; [| exact Hy]. unfold not_after. now apply order_asym.
    + constructor; [exact Hs |]. constructor; [exact Hyx |].
      eapply Forall_impl; [| exact Hy]. intros z Hz.
      now apply (not_after_trans x y z).
Qed.

Lemma sort_sorted (l : list AttrPair) : Sorted.StronglySorted (not_after lt) (sort lt l).
Proof.
  induction l as [| x l IH]; [constructor |].
  cbn [sort fold_right]. now apply sort_insert_sorted.
Qed.

End Sorting.

Lemma sorted_weaken (R R' : AttrPair -> AttrPair -> Prop) (l : list AttrPair) :
  (forall a b, R a b -> R' a b) -> Sorted.StronglySorted R l -> Sorted.StronglySorted R' l.
Proof.
  intros H. induction 1 as [| a l Hs IH Ha]; constructor; [exact IH |].
  eapply Forall_impl; [| exact Ha]. intros b. apply H.
Qed.

(** X7.  [printAttrs] enumerates every attribute of the set exactly once;
    without a limit on the attributes the names come in ascending order of
    their bytes; with a limit, [type] and [_type] come before all other
    names, and each of the two groups is in ascending order. *)
Theorem attributes_print_order (options : PrintOptions) (attrs : list AttrPair) :
  Permutation (print_order options attrs) attrs
  /\ (maxAttrs options = SIZE_MAX ->
      Sorted.StronglySorted names_ascend (print_order options attrs))
  /\ (maxAttrs options <> SIZE_MAX ->
      Sorted.StronglySorted important_then_ascend (print_order options attrs)).
Proof.
  unfold print_order. split; [| split].
  - destruct (maxAttrs options =? SIZE_MAX); apply sort_perm.
  - intros ->. rewrite N.eqb_refl.
    apply (sorted_weaken (not_after pair_lt)); [| apply sort_sorted, pair_lt_order].
    intros a b. unfold not_after, pair_lt, names_ascend. intros H.
    now apply Bool.orb_false_elim in H.
  - intros Hne. apply N.eqb_neq in Hne. rewrite Hne.
    apply (sorted_weaken (not_after ImportantFirstAttrNameCmp));
      [| apply sort_sorted, important_first_order].
    intros a b. unfold not_after, ImportantFirstAttrNameCmp, important_then_ascend.
    destruct (isImportantAttrName (fst a)), (isImportantAttrName (fst b)); cbn;
      intros H; split; intros; congruence.
Qed.

Lemma attributes_print_order_witness :
  print_order limit_three typed_pairs
  = [(lit "_type", 2); (lit "type", 4); (lit "a", 3); (lit "name", 1)]
  /\ Sorted.StronglySorted important_then_ascend (print_order limit_three typed_pairs).
Proof.
  split; [now vm_compute |].
  refine (proj2 (proj2 (attributes_print_order limit_three typed_pairs)) _).
  now vm_compute.
Defined.

(** ** Limits of the traversal *)

Section Limits.

Variable ansi : AnsiCodes.
Variable state : EvalState.
Variable options : PrintOptions.

(** X8.  At a depth of [maxDepth] or more, [print] makes no recursive call:
    whatever the value is, the call has an outcome with fuel for no nested
    call at all, and with more fuel the outcome is the same.  (The value
    itself is still forced, and the test of the derivation and
    [printDerivation], which come before the test of the depth, still
    run.) *)
Theorem nothing_below_maxDepth (fuel : nat) (v : Addr) (depth : N) (p : Printer) :
  maxDepth options <= depth ->
  print ansi state options (S fuel) v depth p
  = print ansi state options 1 v depth p
  /\ print ansi state options 1 v depth p <> None.
Proof.
  intros Hd. assert (Hlt : (depth <? maxDepth options) = false)
    by (apply N.ltb_ge; exact Hd).
  rewrite !print_unfold.
  destruct (forced state options (heap p) v) as [h' [e |]]; [now split |].
  unfold dispatch.
  destruct (heap (set_heap h' p) v) as [| | | | | | attrs | items | f | t | |];
    try (split; [reflexivity | discriminate]).
  - unfold printAttrs. destruct (seen_insert v (set_heap h' p)) as [[|] p1];
      [split; [reflexivity | discriminate] |].
    destruct (derivationTest state options (heap p1) v) as [h2 [e | [|]]].
    + split; [reflexivity | discriminate].
    + split; [reflexivity |]. unfold printDerivation, try_catch, drvStorePath.
      destruct (find_attr (sDrvPath state) attrs) as [i |]; [| discriminate].
      destruct (coerceToStorePath state (heap (set_heap h2 p1)) i)
        as [h [e | path]]; discriminate.
    + rewrite Hlt. split; [reflexivity | discriminate].
  - unfold printList.
    destruct (match items with
              | [] => (false, set_heap h' p)
              | _ :: _ => seen_insert v (set_heap h' p)
              end) as [[|] p1]; [split; [reflexivity | discriminate] |].
    rewrite Hlt. split; [reflexivity | discriminate].
  - split; [reflexivity |]. destruct f as [[[name pos] |] | | |]; discriminate.
  - split; [reflexivity |]. destruct t; discriminate.
Qed.

(** A scalar is printed by writing text and nothing else, when values are
    not forced. *)
Lemma print_scalar (fuel : nat) (a : Addr) (depth : N) (q : Printer) :
  force options = false ->
  is_scalar (heap q a) = true ->
  only_writes (print ansi state options (S fuel) a depth) q.
Proof.
  intros Hforce Hs. unfold only_writes. rewrite print_unfold. unfold forced.
  rewrite Hforce, set_heap_same. unfold dispatch.
  destruct (heap q a) as [| | | | | | | | [ | | |] | [ | | |] | |];
    try discriminate Hs; eexists; (split; [reflexivity | now repeat split]).
Qed.

(** The loop of [printAttrs], when the values only write: it prints pairs
    until the counter reaches [maxAttrs], and then the notice. *)
Lemma attrs_loop_budget (rec : Addr -> N -> Method) (size depth : N) :
  maxAttrs options <= SIZE_MAX ->
  forall (sorted : list AttrPair) (p : Printer),
    (forall name a q, In (name, a) sorted -> heap q = heap p ->
       only_writes (rec a (size_inc depth)) q) ->
    attrsPrinted p <= maxAttrs options ->
    exists pM,
      printAttrs_loop ansi options rec size depth
        (firstn (N.to_nat (maxAttrs options - attrsPrinted p)) sorted) p
      = Some (Returned pM)
      /\ heap pM = heap p
      /\ attrsPrinted pM
         = attrsPrinted p
           + N.of_nat (Nat.min (N.to_nat (maxAttrs options - attrsPrinted p))
                         (length sorted))
      /\ printAttrs_loop ansi options rec size depth sorted p
         = Some (Returned
                   (if (N.to_nat (maxAttrs options - attrsPrinted p) <? length sorted)%nat
                    then printElided_ ansi options
                           (to_unsigned (size_sub size (maxAttrs options)))
                           (lit "attribute") (lit "attributes") pM
                    else pM)).
Proof.
  intros HM. induction sorted as [| [name a] rest IH]; intros p Hrec Hle.
  - exists p. rewrite firstn_nil. cbn [printAttrs_loop length].
    rewrite Nat.min_0_r, N.add_0_r. now repeat split.
  - destruct (N.leb_spec (maxAttrs options) (attrsPrinted p)) as [Hge | Hlt].
    + assert (Heq : attrsPrinted p = maxAttrs options) by lia.
      rewrite Heq, N.sub_diag. exists p. cbn [N.to_nat firstn printAttrs_loop].
      rewrite Heq, N.leb_refl, N.add_0_r. now repeat split.
    + destruct (Hrec name a
                  (emit (lit " = ")
                     (write (fun out => printAttributeName ansi out (view_of name)) p)))
        as (q' & Hq' & Hh & _ & Ha & _); [now left | reflexivity |].
      set (p1 := incr_attrsPrinted (emit (lit "; ") q')).
      assert (Hp1 : attrsPrinted p1 = attrsPrinted p + 1).
      { unfold p1. cbn [attrsPrinted incr_attrsPrinted emit write].
        rewrite Ha. cbn [attrsPrinted emit write].
        now apply (size_inc_below _ (maxAttrs options)). }
      assert (Hh1 : heap p1 = heap p).
      { unfold p1. cbn [heap incr_attrsPrinted emit write]. exact Hh. }
      destruct (IH p1) as (pM & HpM & HhM & HaM & Hfull).
      { intros name' a' q Hin Hq. apply (Hrec name' a' q); [now right | congruence]. }
      { lia. }
      assert (Hstep : forall l,
                printAttrs_loop ansi options rec size depth ((name, a) :: l) p
                = printAttrs_loop ansi options rec size depth l p1).
      { intros l. cbn [printAttrs_loop fst snd].
        destruct (N.leb_spec (maxAttrs options) (attrsPrinted p)); [lia |].
        unfold andThen at 1 2. unfold lift at 1 2. unfold andThen at 1.
        now rewrite Hq'. }
      replace (N.to_nat (maxAttrs options - attrsPrinted p))
        with (S (N.to_nat (maxAttrs options - attrsPrinted p1))) by lia.
      exists pM. cbn [firstn length]. rewrite !Hstep, HpM, Hfull.
      split; [reflexivity |]. split; [congruence |]. split; [| reflexivity].
      rewrite HaM, Hp1, <- Nat.succ_min_distr. lia.
Qed.

(** The same for the loop of [printList]; an empty slot counts as an
    item. *)
Lemma list_loop_budget (rec : Addr -> N -> Method) (size depth : N) :
  maxListItems options <= SIZE_MAX ->
  forall (items : list (option Addr)) (p : Printer),
    (forall a q, In (Some a) items -> heap q = heap p ->
       only_writes (rec a (size_inc depth)) q) ->
    listItemsPrinted p <= maxListItems options ->
    exists pM,
      printList_loop ansi options rec size depth
        (firstn (N.to_nat (maxListItems options - listItemsPrinted p)) items) p
      = Some (Returned pM)
      /\ heap pM = heap p
      /\ listItemsPrinted pM
         = listItemsPrinted p
           + N.of_nat (Nat.min (N.to_nat (maxListItems options - listItemsPrinted p))
                         (length items))
      /\ printList_loop ansi options rec size depth items p
         = Some (Returned
                   (if (N.to_nat (maxListItems options - listItemsPrinted p)
                        <? length items)%nat
                    then printElided_ ansi options
                           (to_unsigned (size_sub size (maxListItems options)))
                           (lit "item") (lit "items") pM
                    else pM)).
Proof.
  intros HM. induction items as [| elem rest IH]; intros p Hrec Hle.
  - exists p. rewrite firstn_nil. cbn [printList_loop length].
    rewrite Nat.min_0_r, N.add_0_r. now repeat split.
  - destruct (N.leb_spec (maxListItems options) (listItemsPrinted p)) as [Hge | Hlt].
    + assert (Heq : listItemsPrinted p = maxListItems options) by lia.
      rewrite Heq, N.sub_diag. exists p. cbn [N.to_nat firstn printList_loop].
      rewrite Heq, N.leb_refl, N.add_0_r. now repeat split.
    + assert (Helem : only_writes
                        (match elem with
                         | Some e => rec e (size_inc depth)
                         | None => lift (printNullptr ansi options)
                         end) p).
      { destruct elem as [e |].
        - apply (Hrec e p); [now left | reflexivity].
        - eexists. split; [reflexivity | now repeat split]. }
      destruct Helem as (q' & Hq' & Hh & _ & _ & Hl).
      set (p1 := incr_listItemsPrinted (emit (lit " ") q')).
      assert (Hp1 : listItemsPrinted p1 = listItemsPrinted p + 1).
      { unfold p1. cbn [listItemsPrinted incr_listItemsPrinted emit write].
        rewrite Hl. now apply (size_inc_below _ (maxListItems options)). }
      assert (Hh1 : heap p1 = heap p).
      { unfold p1. cbn [heap incr_listItemsPrinted emit write]. exact Hh. }
      destruct (IH p1) as (pM & HpM & HhM & HaM & Hfull).
      { intros a' q Hin Hq. apply (Hrec a' q); [now right | congruence]. }
      { lia. }
      assert (Hstep : forall l,
                printList_loop ansi options rec size depth (elem :: l) p
                = printList_loop ansi options rec size depth l p1).
      { intros l. cbn [printList_loop].
        destruct (N.leb_spec (maxListItems options) (listItemsPrinted p)); [lia |].
        unfold andThen at 1. now rewrite Hq'. }
      replace (N.to_nat (maxListItems options - listItemsPrinted p))
        with (S (N.to_nat (maxListItems options - listItemsPrinted p1))) by lia.
      exists pM. cbn [firstn length]. rewrite !Hstep, HpM, Hfull.
      split; [reflexivity |]. split; [congruence |]. split; [| reflexivity].
      rewrite HaM, Hp1, <- Nat.succ_min_distr. lia.
Qed.

End Limits.

Lemma nothing_below_maxDepth_witness :
  print nix_ansi toy_state limited_options 9 0 2 shared_start
  = print nix_ansi toy_state limited_options 1 0 2 shared_start.
Proof.
  exact (proj1 (nothing_below_maxDepth nix_ansi toy_state limited_options 8 0 2
                  shared_start ltac:(now vm_compute))).
Defined.

Lemma printElided_emit (ansi : AnsiCodes) (options : PrintOptions) (value : N)
    (single plural : text) (p : Printer) :
  printElided_ ansi options value single plural p
  = emit (elision_notice ansi value single plural (ansiColors options)) p.
Proof.
  unfold printElided_, emit, write. now rewrite printElided_notice.
Qed.

(** X9.  When values are not forced and the values of a set are scalars, a
    set with more attributes than [maxAttrs], entered with the counter at
    zero, is printed as its first [maxAttrs] pairs (in the order of
    enumeration), written as they are without a limit in the way, and one
    notice for the number of pairs that are left. *)
Theorem flat_set_truncated (ansi : AnsiCodes) (state : EvalState)
    (options : PrintOptions) (fuel : nat) (depth : N) (sorted : list AttrPair)
    (p : Printer) :
  force options = false ->
  maxAttrs options <= SIZE_MAX ->
  (forall name a, In (name, a) sorted -> is_scalar (heap p a) = true) ->
  attrsPrinted p = 0 ->
  maxAttrs options < N.of_nat (length sorted) ->
  N.of_nat (length sorted) - maxAttrs options < 2 ^ 32 ->
  exists pM,
    printAttrs_loop ansi options (print ansi state options (S fuel))
      (N.of_nat (length sorted)) depth
      (firstn (N.to_nat (maxAttrs options)) sorted) p
    = Some (Returned pM)
    /\ attrsPrinted pM = maxAttrs options
    /\ printAttrs_loop ansi options (print ansi state options (S fuel))
         (N.of_nat (length sorted)) depth sorted p
       = Some (Returned
                 (emit (elision_notice ansi
                          (N.of_nat (length sorted) - maxAttrs options)
                          (lit "attribute") (lit "attributes") (ansiColors options))
                    pM)).
Proof.
  intros Hforce HM Hscalar Hzero Hlt Hfit.
  destruct (attrs_loop_budget ansi options (print ansi state options (S fuel))
              (N.of_nat (length sorted)) depth HM sorted p)
    as (pM & HpM & _ & Hcount & Hfull).
  { intros name a q Hin Hq. apply print_scalar; [exact Hforce |].
    rewrite Hq. now apply (Hscalar name a). }
  { lia. }
  rewrite Hzero, N.sub_0_r in *. exists pM. split; [exact HpM |]. split.
  - rewrite Hcount. lia.
  - rewrite Hfull.
    destruct (Nat.ltb_spec (N.to_nat (maxAttrs options)) (length sorted)); [| lia].
    rewrite printElided_emit, to_unsigned_size_sub by (assumption || lia).
    reflexivity.
Qed.

Lemma flat_set_truncated_witness :
  printAttrs_loop nix_ansi limit_two (print nix_ansi toy_state limit_two 1) 3 0
    flat_pairs (flat_start heap_flat_attrs)
  = Some (Returned
            (emit (lit "«1 attribute elided»")
               {| output := lit "a = 1; b = 2; "; heap := heap_flat_attrs;
                  seen := Some ∅; attrsPrinted := 2; listItemsPrinted := 0 |})).
Proof.
  destruct (flat_set_truncated nix_ansi toy_state limit_two 0 0 flat_pairs
              (flat_start heap_flat_attrs) eq_refl)
    as (pM & HpM & _ & Hfull).
  - now vm_compute.
  - intros name a [H | [H | [H | []]]]; injection H as <- <-; reflexivity.
  - reflexivity.
  - now vm_compute.
  - now vm_compute.
  - injection HpM as <-. exact Hfull.
Defined.

(** X10.  The same for a list whose items are scalars or empty slots: the
    first [maxListItems] items, and one notice for the number of items that
    are left, provided that this number fits 32 bits (the notice takes it
    as an [unsigned int]); an empty slot is printed as «nullptr» and counts
    as an item. *)
Theorem flat_list_truncated (ansi : AnsiCodes) (state : EvalState)
    (options : PrintOptions) (fuel : nat) (depth : N)
    (items : list (option Addr)) (p : Printer) :
  force options = false ->
  maxListItems options <= SIZE_MAX ->
  (forall a, In (Some a) items -> is_scalar (heap p a) = true) ->
  listItemsPrinted p = 0 ->
  maxListItems options < N.of_nat (length items) ->
  N.of_nat (length items) - maxListItems options < 2 ^ 32 ->
  exists pM,
    printList_loop ansi options (print ansi state options (S fuel))
      (N.of_nat (length items)) depth
      (firstn (N.to_nat (maxListItems options)) items) p
    = Some (Returned pM)
    /\ listItemsPrinted pM = maxListItems options
    /\ printList_loop ansi options (print ansi state options (S fuel))
         (N.of_nat (length items)) depth items p
       = Some (Returned
                 (emit (elision_notice ansi
                          (N.of_nat (length items) - maxListItems options)
                          (lit "item") (lit "items") (ansiColors options))
                    pM)).
Proof.
  intros Hforce HM Hscalar Hzero Hlt Hfit.
  destruct (list_loop_budget ansi options (print ansi state options (S fuel))
              (N.of_nat (length items)) depth HM items p)
    as (pM & HpM & _ & Hcount & Hfull).
  { intros a q Hin Hq. apply print_scalar; [exact Hforce |].
    rewrite Hq. now apply Hscalar. }
  { lia. }
  rewrite Hzero, N.sub_0_r in *. exists pM. split; [exact HpM |]. split.
  - rewrite Hcount. lia.
  - rewrite Hfull.
    destruct (Nat.ltb_spec (N.to_nat (maxListItems options)) (length items)); [| lia].
    rewrite printElided_emit, to_unsigned_size_sub by (assumption || lia).
    reflexivity.
Qed.

Lemma flat_list_truncated_witness :
  printList_loop nix_ansi limit_two (print nix_ansi toy_state limit_two 1) 4 0
    [Some 1; None; Some 2; Some 3] (flat_start heap_flat_list)
  = Some (Returned
            (emit (lit "«2 items elided»")
               {| output := lit "1 «nullptr» "; heap := heap_flat_list;
                  seen := Some ∅; attrsPrinted := 0; listItemsPrinted := 2 |})).
Proof.
  destruct (flat_list_truncated nix_ansi toy_state limit_two 0 0
              [Some 1; None; Some 2; Some 3] (flat_start heap_flat_list) eq_refl)
    as (pM & HpM & _ & Hfull).
  - now vm_compute.
  - intros a [H | [H | [H | [H | []]]]]; try discriminate H;
      injection H as <-; reflexivity.
  - reflexivity.
  - now vm_compute.
  - now vm_compute.
  - injection HpM as <-. exact Hfull.
Defined.

(** ** What the printer leaves alone *)

Section Invariants.

Variable ansi : AnsiCodes.
Variable options : PrintOptions.




End Invariants.








(** X13.  [printDerivation] always returns: a set without [drvPath] is
    printed as «derivation», a set whose [drvPath] is coerced to a path as
    «derivation» with the path (without it when the path is empty), and
    when the coercion throws, the error is caught and its message is
    printed in place of the derivation. *)
Theorem printDerivation_cases (ansi : AnsiCodes) (state : EvalState)
    (options : PrintOptions) (attrs : list AttrPair) (p : Printer) :
  (exists p', printDerivation ansi state options attrs p = Some (Returned p'))
  /\ (find_attr (sDrvPath state) attrs = None ->
      printDerivation ansi state options attrs p
      = Some (Returned (coloured ansi options (ANSI_GREEN ansi)
                          (lit "«derivation" ++ lit "»") p)))
  /\ (forall i h path,
        find_attr (sDrvPath state) attrs = Some i ->
        coerceToStorePath state (heap p) i = (h, inr path) ->
        printDerivation ansi state options attrs p
        = Some (Returned (coloured ansi options (ANSI_GREEN ansi)
                            (lit "«derivation"
                             ++ (if decide (path = []) then [] else lit " " ++ path)
                             ++ lit "»") (set_heap h p))))
  /\ (forall i h e,
        find_attr (sDrvPath state) attrs = Some i ->
        coerceToStorePath state (heap p) i = (h, inl e) ->
        printDerivation ansi state options attrs p
        = Some (Returned (printError_ ansi options e (set_heap h p)))).
Proof.
  unfold printDerivation, try_catch, drvStorePath, lift.
  split; [| split; [| split]].
  - destruct (find_attr (sDrvPath state) attrs) as [i |]; [| now eexists].
    destruct (coerceToStorePath state (heap p) i) as [h [e | path]]; now eexists.
  - now intros ->.
  - intros i h path -> ->. now destruct path.
  - now intros i h e -> ->.
Qed.

Lemma printDerivation_cases_witness :
  printDerivation nix_ansi toy_state forcing_options
    [(lit "drvPath", 1); (lit "type", 2)] (flat_start heap_bad_derivation)
  = Some (Returned (printError_ nix_ansi forcing_options
                      {| msg := lit "cannot coerce to a store path" |}
                      (flat_start heap_bad_derivation))).
Proof.
  exact (proj2 (proj2 (proj2
    (printDerivation_cases nix_ansi toy_state forcing_options
       [(lit "drvPath", 1); (lit "type", 2)] (flat_start heap_bad_derivation))))
    1 heap_bad_derivation _ eq_refl eq_refl).
Defined.

(** ** Sizes and empty containers *)

Lemma escape_length (c next : ascii) :
  (1 <= length (escape c next) <= 2)%nat.
Proof.
  unfold escape.
  repeat match goal with
         | |- context [if ?b then _ else _] => destruct b
         end; cbn; lia.
Qed.

Lemma pieces_length (s : string_view) (n : nat) :
  forall i, (n <= length (pieces s i n) <= 2 * n)%nat.
Proof.
  induction n as [| n IH]; intros i; [cbn; lia |].
  rewrite pieces_S, length_app.
  pose proof (escape_length (deref s i) (deref s (S i))).
  pose proof (IH (S i)). lia.
Qed.

(** X14.  Without colours, a string of L characters within the limit is
    printed in at least L + 2 and at most 2 L + 2 characters; a string cut
    at the limit M is printed in at most 2 M + 3 characters and the
    notice. *)
Theorem literal_length_bounds (ansi : AnsiCodes) (str : text) (s : string_view)
    (maxLength : N) :
  maxLength <= SIZE_MAX ->
  (sv_length s <= maxLength ->
   (length str + length (sv_chars s) + 2
    <= length (printLiteralString ansi str s maxLength false)
    <= length str + 2 * length (sv_chars s) + 2)%nat)
  /\ (maxLength < sv_length s ->
      (length (printLiteralString ansi str s maxLength false)
       <= length str + 2 * N.to_nat maxLength + 3
          + length (elision_notice ansi
                      (to_unsigned (size_sub (sv_length s) maxLength))
                      (lit "byte") (lit "bytes") false))%nat).
Proof.
  intros HM. split; intros HL.
  - rewrite printLiteralString_whole by assumption.
    rewrite !length_app. cbn [when length]. unfold escaped_prefix.
    pose proof (pieces_length s (length (sv_chars s)) 0). lia.
  - rewrite printLiteralString_cut by assumption.
    rewrite !length_app. cbn [when length]. unfold escaped_prefix.
    pose proof (pieces_length s (N.to_nat maxLength) 0). lia.
Qed.

Lemma literal_length_bounds_witness :
  (length (printLiteralString nix_ansi [] (view_of (lit "a\b")) 8 false) <= 8)%nat.
Proof.
  exact (proj2 (proj1 (literal_length_bounds nix_ansi [] (view_of (lit "a\b")) 8
                         ltac:(now vm_compute)) ltac:(now vm_compute))).
Defined.

(** X15.  An empty list and an empty set, met above [maxDepth], are printed
    as a pair of brackets whatever the budgets are: no notice is written
    when there is nothing to leave out, even with a budget of zero or a
    budget used up; the counters stay as they are, and an empty list is not
    recorded in [seen]. *)
Theorem empty_containers (ansi : AnsiCodes) (state : EvalState)
    (options : PrintOptions) (fuel : nat) (v : Addr) (depth : N) (p : Printer)
    (h' : Heap) :
  forced state options (heap p) v = (h', None) ->
  depth < maxDepth options ->
  (h' v = VList [] ->
   print ansi state options (S fuel) v depth p
   = Some (Returned (emit (lit "]") (emit (lit "[ ") (set_heap h' p)))))
  /\ (h' v = VAttrs [] ->
      snd (shortcut state options h' v) = inr false ->
      (forall s, seen p = Some s -> v ∉ s) ->
      exists p',
        print ansi state options (S fuel) v depth p = Some (Returned p')
        /\ output p' = output p ++ lit "{ }"
        /\ attrsPrinted p' = attrsPrinted p
        /\ listItemsPrinted p' = listItemsPrinted p).
Proof.
  intros Hf Hd. apply N.ltb_lt in Hd.
  rewrite print_unfold, Hf. unfold dispatch. cbn [heap set_heap]. split.
  - intros ->. unfold printList. rewrite Hd. reflexivity.
  - intros -> Hshort Hfresh. unfold printAttrs.
    assert (Hins : exists p1, seen_insert v (set_heap h' p) = (false, p1)
                              /\ heap p1 = h' /\ output p1 = output p
                              /\ attrsPrinted p1 = attrsPrinted p
                              /\ listItemsPrinted p1 = listItemsPrinted p).
    { unfold seen_insert. cbn [seen set_heap].
      destruct (seen p) as [s |] eqn:Hs.
      - rewrite bool_decide_eq_false_2 by now apply Hfresh.
        eexists. split; [reflexivity | now repeat split].
      - eexists. split; [reflexivity | now repeat split]. }
    destruct Hins as (p1 & -> & Hh & Ho & Ha & Hl).
    unfold shortcut in Hshort. rewrite Hh.
    destruct (derivationTest state options h' v) as [h2 [e | [|]]];
      try discriminate Hshort.
    rewrite Hd.
    assert (Hsort : forall lt, sort lt [] = []) by reflexivity.
    destruct (maxAttrs options =? SIZE_MAX); rewrite Hsort;
      (eexists; split; [reflexivity |]);
      cbn [output attrsPrinted listItemsPrinted emit write skip id set_heap];
      rewrite Ho, <- app_assoc; now repeat split.
Qed.

Lemma empty_containers_witness :
  print nix_ansi toy_state limit_two 1 3 1 (flat_start heap_cyclic)
  = Some (Returned (emit (lit "]") (emit (lit "[ ") (flat_start heap_cyclic)))).
Proof.
  exact (proj1 (empty_containers nix_ansi toy_state limit_two 0 3 1
                  (flat_start heap_cyclic) heap_cyclic eq_refl
                  ltac:(now vm_compute)) eq_refl).
Defined.
